(** * A shallow embedding of [bb.py], the Gemini command module

    The module is a pair of chat-command handlers ([set_gemini] and
    [gemini_query]) built around three external subsystems: the chat client,
    the web-AI client and the key-value settings store.  The embedding keeps
    the control flow of the handlers as it is written (early returns,
    [try]/[except]/[finally], the [for] loops) and replaces every call into
    an external subsystem by a logged event whose answer is read from a
    [world] record.

    Conventions.
    - Python [str] is [string]; whitespace is the ASCII whitespace
      recognised by [str.isspace] (code points 9-13, 28-32).
    - A [pathlib.Path] is the string [str(path)] gives on a POSIX system.
    - Exceptions are the subclasses of [Exception]: [ValueError] and all the
      others.  Interpreter-level interruptions are not modelled.
    - The answer of an external call depends on its arguments only.
    - The settings store ([utils.db.db]) is a finite map from
      (namespace, key) to values, and its three operations do not raise. *)

From stdpp Require Import gmap strings list fin_maps.
From Stdlib Require Import ZArith Ascii String DecimalString Sorted.
From Stdlib Require DecimalNat DecimalFacts.

Open Scope string_scope.

(** ** Python string primitives used by the module *)

Module PyStr.

Definition isspace (c : ascii) : bool :=
  let n := nat_of_ascii c in
  ((9 <=? n) && (n <=? 13) || (28 <=? n) && (n <=? 32))%nat.

(** [s.lstrip()] *)
Fixpoint lstrip (s : string) : string :=
  match s with
  | EmptyString => EmptyString
  | String c r => if isspace c then lstrip r else s
  end.

(** [s.rstrip()] *)
Fixpoint rstrip (s : string) : string :=
  match s with
  | EmptyString => EmptyString
  | String c r =>
      match rstrip r with
      | EmptyString => if isspace c then EmptyString else String c EmptyString
      | r' => String c r'
      end
  end.

(** [s.strip()] *)
Definition strip (s : string) : string := rstrip (lstrip s).

(** [s.split(sep)] for a one-character separator. *)
Fixpoint split (sep : ascii) (s : string) : list string :=
  match s with
  | EmptyString => [EmptyString]
  | String c r =>
      if Ascii.eqb c sep then EmptyString :: split sep r
      else match split sep r with
           | h :: t => String c h :: t
           | [] => [String c EmptyString]
           end
  end.

(** [sep in s] for a one-character [sep]. *)
Fixpoint contains (sep : ascii) (s : string) : bool :=
  match s with
  | EmptyString => false
  | String c r => Ascii.eqb c sep || contains sep r
  end.

(** The first whitespace-delimited word of [s] and what follows it. *)
Fixpoint break_space (s : string) : string * string :=
  match s with
  | EmptyString => (EmptyString, EmptyString)
  | String c r =>
      if isspace c then (EmptyString, s)
      else let '(w, rest) := break_space r in (String c w, rest)
  end.

(** [s.split(maxsplit=1)]: at most one split on a run of whitespace; the
    remainder keeps its trailing whitespace. *)
Definition split_maxsplit1 (s : string) : list string :=
  match lstrip s with
  | EmptyString => []
  | s1 =>
      let '(w, rest) := break_space s1 in
      match lstrip rest with
      | EmptyString => [w]
      | rest' => [w; rest']
      end
  end.

(** [sep.join(l)] *)
Fixpoint join (sep : string) (l : list string) : string :=
  match l with
  | [] => EmptyString
  | [x] => x
  | x :: r => x ++ sep ++ join sep r
  end.

(** [s.rfind(c)], [None] standing for -1. *)
Fixpoint rfind (c : ascii) (s : string) : option nat :=
  match s with
  | EmptyString => None
  | String a r =>
      match rfind c r with
      | Some i => Some (S i)
      | None => if Ascii.eqb a c then Some 0%nat else None
      end
  end.

(** [s[i:]] *)
Fixpoint drop (i : nat) (s : string) : string :=
  match i, s with
  | O, _ => s
  | S i', String _ r => drop i' r
  | S _, EmptyString => EmptyString
  end.

(** Truthiness of a string: non-empty. *)
Definition truthy (s : string) : bool :=
  match s with EmptyString => false | _ => true end.

End PyStr.

(** ** [pathlib] as used by the module *)

Module PyPath.

Definition Path := string.

(** [Path(p).name]: the last component, empty and [.] components being
    dropped by the parser. *)
Definition name (p : string) : string :=
  List.last
    (List.filter (fun c => negb (String.eqb c "") && negb (String.eqb c "."))
                 (PyStr.split "/" p))
    "".

(** [Path(p).suffix]: from the last dot of the name, when that dot is
    neither its first nor its last character. *)
Definition suffix (p : string) : string :=
  let n := name p in
  match PyStr.rfind "." n with
  | Some i =>
      if ((0 <? i) && (i <? String.length n - 1))%nat then PyStr.drop i n
      else ""
  | None => ""
  end.

(** [str(dir / name)] for a relative directory and a name without
    separators. *)
Definition join (dir : Path) (name : string) : Path := dir ++ "/" ++ name.

End PyPath.

Import PyPath.

(** ** Data of the module and of its three external subsystems *)

Definition TEMP_IMAGE_DIR : Path := "temp_gemini_images".
Definition TEMP_FILE_DIR : Path := "temp_gemini_files".
Definition GEMINI_COOKIE_DIR : Path := "gemini_cookies".
Definition DEFAULT_MODEL : string := "gemini-2.5-flash".

Definition nl : string := String (ascii_of_nat 10) EmptyString.

(** Exceptions, by the two classes the handlers tell apart. *)
Inductive exn : Type :=
| ValueError (msg : string)
| OtherException (name : string).

Inductive result (A : Type) : Type :=
| Ok (a : A)
| Raise (e : exn).
Arguments Ok {A} a.
Arguments Raise {A} e.

(** A value of the settings store: the cookie pair is a string, the
    conversation metadata a list. *)
Inductive dbval : Type :=
| VStr (s : string)
| VList (l : list string).

Definition truthy_val (v : option dbval) : bool :=
  match v with
  | None => false
  | Some (VStr s) => PyStr.truthy s
  | Some (VList []) => false
  | Some (VList (_ :: _)) => true
  end.

(** A media attribute of a message ([document], [audio], ..., [photo]). *)
Record media : Type := {
  file_unique_id : string;
  file_name : option string
}.

(** The replied-to message: each media attribute is there or is [None]. *)
Record replied : Type := {
  document : option media;
  audio : option media;
  video : option media;
  voice : option media;
  video_note : option media;
  photo : option media
}.

(** The incoming [Message]. [from_user] keeps only [is_self]. *)
Record message : Type := {
  msg_id : Z;
  chat_id : Z;
  from_user : option bool;
  command : list string;
  text : option string;
  reply_to_message : option replied
}.

(** The two message objects a handler edits: the incoming one, and the one
    returned by the first edit or reply ([wait_msg]). *)
Inductive msgref : Type := Incoming | WaitMsg.

Inductive parse_mode : Type := MARKDOWN.

(** [GeminiClient(secure_1psid=..., secure_1psidts=...)] *)
Record client : Type := {
  secure_1psid : string;
  secure_1psidts : string
}.

(** [client.start_chat(metadata=..., model=...)] *)
Record chat : Type := {
  chat_client : client;
  chat_start_metadata : option dbval;
  chat_model : string
}.

(** An element of [response.images]. *)
Inductive image : Type :=
| GeneratedImage (url : string)
| WebImage (url : string)
| OtherImage (url : string).

Definition image_url (i : image) : string :=
  match i with GeneratedImage u | WebImage u | OtherImage u => u end.

Record response : Type := {
  resp_text : string;
  images : list image
}.

(** What [chat.send_message] leaves behind: the response, and the chat's
    [metadata] attribute after the exchange. *)
Record sent : Type := {
  sent_response : response;
  sent_metadata : list string
}.

(** Every call into an external subsystem, as it appears in a run. *)
Inductive event : Type :=
| EvReply (text : string)
| EvEdit (target : msgref) (text : string) (pm : option parse_mode)
| EvDownload (dest : Path)
| EvDbGet (ns key : string)
| EvDbSet (ns key : string) (v : dbval)
| EvDbDelete (ns key : string)
| EvNewClient (psid psidts : string)
| EvClientInit (c : client)
| EvCookiesGet (c : client)
| EvStartChat (c : client) (metadata : option dbval) (model : string)
| EvSendMessage (ch : chat) (prompt : string) (files : option (list string))
| EvSave (img : image) (dir filename : string)
| EvSendPhoto (chat_id : Z) (photo : string) (reply_to : Z)
| EvAppSendMessage (chat_id : Z) (text : string) (reply_to : Z)
| EvUnlink (p : Path).

(** The answers of the outside world.  A download or a save answers whether
    it wrote the file. *)
Record world : Type := {
  reply_res : string -> result unit;
  edit_res : msgref -> string -> result unit;
  download_res : Path -> result bool;
  init_res : client -> result unit;
  cookies_get_res : client -> result (option string);
  start_chat_res : client -> option dbval -> string -> result unit;
  send_message_res : chat -> string -> option (list string) -> result sent;
  save_res : image -> string -> result bool;
  send_photo_res : Z -> string -> Z -> result unit;
  app_send_message_res : Z -> string -> Z -> result unit;
  unlink_res : Path -> result unit
}.

(** What the module can change: the settings store, the file system, the
    process environment, and the two path lists [gemini_query] keeps for
    its [finally] clause.  [trace] is the log of external calls. *)
Record state : Type := {
  db : gmap (string * string) dbval;
  files : gset string;
  dirs : gset string;
  environ : gmap string string;
  downloaded_files : list Path;
  generated_image_paths : list Path;
  trace : list event
}.

Definition with_db (f : gmap (string * string) dbval -> gmap (string * string) dbval)
    (s : state) : state :=
  {| db := f (db s); files := files s; dirs := dirs s; environ := environ s;
     downloaded_files := downloaded_files s;
     generated_image_paths := generated_image_paths s; trace := trace s |}.

Definition with_files (f : gset string -> gset string) (s : state) : state :=
  {| db := db s; files := f (files s); dirs := dirs s; environ := environ s;
     downloaded_files := downloaded_files s;
     generated_image_paths := generated_image_paths s; trace := trace s |}.

Definition with_dirs (f : gset string -> gset string) (s : state) : state :=
  {| db := db s; files := files s; dirs := f (dirs s); environ := environ s;
     downloaded_files := downloaded_files s;
     generated_image_paths := generated_image_paths s; trace := trace s |}.

Definition with_environ (f : gmap string string -> gmap string string)
    (s : state) : state :=
  {| db := db s; files := files s; dirs := dirs s; environ := f (environ s);
     downloaded_files := downloaded_files s;
     generated_image_paths := generated_image_paths s; trace := trace s |}.

Definition with_downloaded (l : list Path) (s : state) : state :=
  {| db := db s; files := files s; dirs := dirs s; environ := environ s;
     downloaded_files := l;
     generated_image_paths := generated_image_paths s; trace := trace s |}.

Definition with_generated (l : list Path) (s : state) : state :=
  {| db := db s; files := files s; dirs := dirs s; environ := environ s;
     downloaded_files := downloaded_files s;
     generated_image_paths := l; trace := trace s |}.

Definition log (e : event) (s : state) : state :=
  {| db := db s; files := files s; dirs := dirs s; environ := environ s;
     downloaded_files := downloaded_files s;
     generated_image_paths := generated_image_paths s;
     trace := trace s ++ [e] |}.

(** ** The state-and-exception monad of the handlers *)

Definition M (A : Type) : Type := state -> result A * state.

Definition ret {A} (a : A) : M A := fun s => (Ok a, s).

Definition bind {A B} (m : M A) (f : A -> M B) : M B :=
  fun s =>
    match m s with
    | (Ok a, s') => f a s'
    | (Raise e, s') => (Raise e, s')
    end.

Definition raise {A} (e : exn) : M A := fun s => (Raise e, s).

(** [try: m  except Exception as e: h e] *)
Definition try_except {A} (m : M A) (h : exn -> M A) : M A :=
  fun s =>
    match m s with
    | (Ok a, s') => (Ok a, s')
    | (Raise e, s') => h e s'
    end.

(** [try: m  finally: f]: [f] runs on both exits, and an exception of [f]
    replaces the outcome of [m]. *)
Definition try_finally {A} (m : M A) (f : M unit) : M A :=
  fun s =>
    match m s with
    | (r, s') =>
        match f s' with
        | (Ok _, s'') => (r, s'')
        | (Raise e, s'') => (Raise e, s'')
        end
    end.

Declare Scope py_scope.
Delimit Scope py_scope with py.
Notation "x <- m ;; k" := (bind m (fun x => k))
  (at level 100, m at next level, right associativity) : py_scope.
Notation "m ;; k" := (bind m (fun _ => k))
  (at level 100, right associativity) : py_scope.
Open Scope py_scope.

(** [for p in l: body p] *)
Fixpoint for_each {A} (l : list A) (body : A -> M unit) : M unit :=
  match l with
  | [] => ret tt
  | x :: r => body x ;; for_each r body
  end.

(** An external call: logged, then answered by the world; [eff] is what a
    successful call changes. *)
Definition call {A} (e : event) (r : result A) (eff : A -> state -> state) : M A :=
  fun s =>
    match r with
    | Ok a => (Ok a, eff a (log e s))
    | Raise x => (Raise x, log e s)
    end.

Definition modify (f : state -> state) : M unit := fun s => (Ok tt, f s).
Definition gets {A} (f : state -> A) : M A := fun s => (Ok (f s), s).

(** ** The module, function by function *)

Section Module.

Variable w : world.

(** *** Primitive steps *)

Definition db_get (ns key : string) : M (option dbval) :=
  fun s => (Ok (db s !! (ns, key)), log (EvDbGet ns key) s).

Definition db_set (ns key : string) (v : dbval) : M unit :=
  fun s => (Ok tt, with_db (insert (ns, key) v) (log (EvDbSet ns key v) s)).

Definition db_delete (ns key : string) : M unit :=
  fun s => (Ok tt, with_db (delete (ns, key)) (log (EvDbDelete ns key) s)).

(** [p.mkdir(parents=True, exist_ok=True)] *)
Definition mkdir (p : Path) : M unit :=
  modify (with_dirs (fun d => {[p]} ∪ d)).

(** [p.exists()] *)
Definition path_exists (p : Path) : M bool :=
  gets (fun s => bool_decide (p ∈ files s)).

(** [p.unlink()] *)
Definition unlink (p : Path) : M unit :=
  call (EvUnlink p) (unlink_res w p)
       (fun _ => with_files (fun f => f ∖ {[p]})).

(** [message.reply(text)] *)
Definition reply (t : string) : M msgref :=
  call (EvReply t) (reply_res w t) (fun _ s => s) ;; ret WaitMsg.

(** [target.edit(text, parse_mode=pm)] *)
Definition edit (target : msgref) (t : string) (pm : option parse_mode) : M msgref :=
  call (EvEdit target t pm) (edit_res w target t) (fun _ s => s) ;; ret WaitMsg.

(** [replied.download(file_name=dest)] *)
Definition download (dest : Path) : M unit :=
  call (EvDownload dest) (download_res w dest)
       (fun written => if written : bool
                       then with_files (fun f => {[dest]} ∪ f) else fun s => s) ;;
  ret tt.

(** [image.save(path=dir, filename=filename, verbose=True)] *)
Definition image_save (img : image) (dir filename : string) : M unit :=
  call (EvSave img dir filename) (save_res w img filename)
       (fun written => if written : bool
                       then with_files (fun f => {[PyPath.join dir filename]} ∪ f)
                       else fun s => s) ;;
  ret tt.

Definition send_photo (cid : Z) (ph : string) (reply_to : Z) : M unit :=
  call (EvSendPhoto cid ph reply_to) (send_photo_res w cid ph reply_to) (fun _ s => s).

Definition app_send_message (cid : Z) (t : string) (reply_to : Z) : M unit :=
  call (EvAppSendMessage cid t reply_to) (app_send_message_res w cid t reply_to)
       (fun _ s => s).

(** *** Lines 15-24: what importing the module does *)

Definition module_init : M unit :=
  mkdir TEMP_IMAGE_DIR ;;
  mkdir TEMP_FILE_DIR ;;
  mkdir GEMINI_COOKIE_DIR ;;
  modify (with_environ (fun e =>
    match e !! "GEMINI_COOKIE_PATH" with
    | Some _ => e
    | None => <["GEMINI_COOKIE_PATH" := GEMINI_COOKIE_DIR]> e
    end)).

(** *** [_safe_remove] *)

Definition _safe_remove (p : Path) : M unit :=
  try_except
    (ex <- path_exists p ;;
     if ex then unlink p else ret tt)
    (fun _ => ret tt).

(** *** [get_client] *)

Definition get_client : M client :=
  cookie <- db_get "custom.gemini" "cookie" ;;
  if negb (truthy_val cookie) then
    raise (ValueError "No Gemini cookies configured. Use set_gemini command.")
  else
    match cookie with
    | Some (VStr c) =>
        match PyStr.split "|" (PyStr.strip c) with
        | [psid; psidts] =>
            if negb (PyStr.truthy psid) || negb (PyStr.truthy psidts) then
              raise (ValueError "Invalid cookie values. Both parts must be non-empty.")
            else
              modify (with_environ (insert "GEMINI_COOKIE_PATH" GEMINI_COOKIE_DIR)) ;;
              mkdir GEMINI_COOKIE_DIR ;;
              let cl := {| secure_1psid := psid; secure_1psidts := psidts |} in
              modify (log (EvNewClient psid psidts)) ;;
              call (EvClientInit cl) (init_res w cl) (fun _ s => s) ;;
              try_except
                (new_psidts <- call (EvCookiesGet cl) (cookies_get_res w cl)
                                    (fun _ s => s) ;;
                 match new_psidts with
                 | Some n =>
                     if PyStr.truthy n && negb (String.eqb n psidts) then
                       db_set "custom.gemini" "cookie" (VStr (psid ++ "|" ++ n))
                     else ret tt
                 | None => ret tt
                 end)
                (fun _ => ret tt) ;;
              ret cl
        | _ =>
            raise (ValueError "Invalid cookie format. Use: __Secure-1PSID|__Secure-1PSIDTS")
        end
    | _ =>
        (* a stored value that is not a string has no [strip] *)
        raise (OtherException "AttributeError")
    end.

(** *** [_download_replied_media] *)

Definition media_attrs : list string :=
  ["document"; "audio"; "video"; "voice"; "video_note"].

(** [getattr(replied, attr, None)] *)
Definition getattr_media (r : replied) (attr : string) : option media :=
  if String.eqb attr "document" then document r
  else if String.eqb attr "audio" then audio r
  else if String.eqb attr "video" then video r
  else if String.eqb attr "voice" then voice r
  else if String.eqb attr "video_note" then video_note r
  else if String.eqb attr "photo" then photo r
  else None.

Definition ext_map : list (string * option string) :=
  [("voice", Some ".ogg");
   ("video_note", Some ".mp4");
   ("video", Some ".mp4");
   ("audio", Some ".mp3");
   ("document", None)].

(** [d.get(key, default)] on a dict literal *)
Fixpoint dict_get {V} (d : list (string * V)) (key : string) (default : V) : V :=
  match d with
  | [] => default
  | (k, v) :: r => if String.eqb k key then v else dict_get r key default
  end.

(** How an f-string prints a value that is a string or [None]. *)
Definition fmt (x : option string) : string :=
  match x with Some s => s | None => "None" end.

Definition truthy_opt (x : option string) : bool :=
  match x with Some s => PyStr.truthy s | None => false end.

(** The extension computed at lines 85-89. *)
Definition media_ext (attr : string) (media_obj : media) : option string :=
  let filename := file_name media_obj in
  let ext :=
    if truthy_opt filename then
      match filename with
      | Some f => if PyStr.truthy (suffix f) then Some (suffix f) else None
      | None => None
      end
    else None in
  if negb (truthy_opt ext) then dict_get ext_map attr (Some ".bin") else ext.

Definition media_dest (attr : string) (media_obj : media) : Path :=
  PyPath.join TEMP_FILE_DIR (file_unique_id media_obj ++ fmt (media_ext attr media_obj)).

(** The [for attr in (...)] loop with its [break]; [acc] is [files]. *)
Fixpoint media_loop (r : replied) (attrs : list string) (acc : list Path)
    : M (list Path) :=
  match attrs with
  | [] => ret acc
  | attr :: rest =>
      match getattr_media r attr with
      | Some media_obj =>
          let dest := media_dest attr media_obj in
          download dest ;;
          ret (acc ++ [dest])%list
      | None => media_loop r rest acc
      end
  end.

Definition _download_replied_media (m : message) : M (list Path) :=
  match reply_to_message m with
  | None => ret []
  | Some r =>
      fl <- media_loop r media_attrs [] ;;
      match photo r, fl with
      | Some ph, [] =>
          let dest := PyPath.join TEMP_FILE_DIR (file_unique_id ph ++ ".jpg") in
          download dest ;;
          ret (fl ++ [dest])%list
      | _, _ => ret fl
      end
  end.

(** *** [_save_generated_image] *)

(** [str(index)] in decimal *)
Definition str_of_nat (n : nat) : string :=
  NilZero.string_of_uint (Nat.to_uint n).

Definition _save_generated_image (img : image) (index : nat) : M (option Path) :=
  let filename := "gemini_gen_" ++ str_of_nat index ++ ".png" in
  let filepath := PyPath.join TEMP_IMAGE_DIR filename in
  try_except
    (image_save img TEMP_IMAGE_DIR filename ;;
     ex <- path_exists filepath ;;
     if ex then ret (Some filepath) else ret None)
    (fun _ => ret None).

(** *** The reply helper both handlers use

    [message.edit(t) if is_self else message.reply(t)] *)

Definition is_self (m : message) : bool :=
  match from_user m with Some b => b | None => false end.

Definition respond (m : message) (t : string) : M msgref :=
  if is_self m then edit Incoming t None else reply t.

(** *** [set_gemini] *)

Definition set_usage : string :=
  "<b>Usage:</b> <code>set_gemini __Secure-1PSID|__Secure-1PSIDTS</code>".
Definition set_invalid : string :=
  "❌ Invalid format. Use: __Secure-1PSID|__Secure-1PSIDTS".
Definition set_success : string :=
  "✅ Gemini cookies set successfully.".

(** The test of line 121, on the stripped argument. *)
Definition set_gemini_rejects (cookies : string) : bool :=
  negb (PyStr.contains "|" cookies)
  || negb (List.length (PyStr.split "|" cookies) =? 2)%nat.

Definition set_gemini (m : message) : M unit :=
  if (List.length (command m) <? 2)%nat then
    respond m set_usage ;; ret tt
  else
    match text m with
    | None => raise (OtherException "AttributeError")
    | Some t =>
        match PyStr.split_maxsplit1 t with
        | _ :: arg :: _ =>
            let cookies := PyStr.strip arg in
            if set_gemini_rejects cookies then
              respond m set_invalid ;; ret tt
            else
              db_set "custom.gemini" "cookie" (VStr cookies) ;;
              respond m set_success ;; ret tt
        | _ => raise (OtherException "IndexError")
        end
    end.

(** *** [gemini_query] *)

Definition gemini_usage : string := "<b>Usage:</b> <code>gemini [prompt]</code>".
Definition prompt_empty : string := "❌ Prompt cannot be empty.".
Definition thinking : string := "<code>Thinking...</code>".
Definition no_answer : string := "❌ No answer found.".
Definition generic_error : string :=
  "❌ Gemini encountered an error. Please try again or re-set cookies with set_gemini.".
Definition image_warning : string := "⚠️ Failed to send one image.".

(** [client.start_chat(metadata=metadata, model=model)]; without the
    [metadata] keyword when [metadata] is [None]. *)
Definition start_chat (cl : client) (metadata : option dbval) (model : string)
    : M chat :=
  call (EvStartChat cl metadata model) (start_chat_res w cl metadata model)
       (fun _ s => s) ;;
  ret {| chat_client := cl; chat_start_metadata := metadata; chat_model := model |}.

Definition send_message (ch : chat) (prompt : string) (fa : option (list string))
    : M sent :=
  call (EvSendMessage ch prompt fa) (send_message_res w ch prompt fa) (fun _ s => s).

(** Lines 181-182 and 184-185: send the image by its url when it has one. *)
Definition send_by_url (m : message) (img : image) : M unit :=
  if PyStr.truthy (image_url img)
  then send_photo (chat_id m) (image_url img) (msg_id m)
  else ret tt.

(** Lines 175-185: the body of the inner [try]. *)
Definition relay_image (m : message) (i : nat) (img : image) : M unit :=
  match img with
  | GeneratedImage _ =>
      saved <- _save_generated_image img i ;;
      match saved with
      | Some p =>
          ex <- path_exists p ;;
          if ex then
            send_photo (chat_id m) p (msg_id m) ;;
            modify (fun s => with_generated (generated_image_paths s ++ [p]) s)
          else send_by_url m img
      | None => send_by_url m img
      end
  | WebImage _ => send_by_url m img
  | OtherImage _ => ret tt
  end.

(** Lines 174-187: one turn of the image loop, the inner [try] with its
    [except]. *)
Definition relay_step (m : message) (i : nat) (img : image) : M unit :=
  try_except
    (relay_image m i img)
    (fun _ => app_send_message (chat_id m) image_warning (msg_id m)).

(** Lines 173-187: [for i, image in enumerate(response.images)], from
    index [i] on. *)
Fixpoint relay_images (m : message) (i : nat) (imgs : list image) : M unit :=
  match imgs with
  | [] => ret tt
  | img :: rest =>
      relay_step m i img ;;
      relay_images m (S i) rest
  end.

(** Lines 149-159: open the chat, from the stored metadata when there is
    some. *)
Definition open_chat (cl : client) : M chat :=
  metadata <- db_get "custom.gemini" "chat_metadata" ;;
  if truthy_val metadata then
    try_except
      (start_chat cl metadata DEFAULT_MODEL)
      (fun _ =>
         ch <- start_chat cl None DEFAULT_MODEL ;;
         db_delete "custom.gemini" "chat_metadata" ;;
         ret ch)
  else start_chat cl None DEFAULT_MODEL.

(** Lines 164-187: store the new metadata and relay the answer. *)
Definition relay_response (m : message) (prompt : string) (wait_msg : msgref)
    (snt : sent) : M unit :=
  (match sent_metadata snt with
   | [] => ret tt
   | md => db_set "custom.gemini" "chat_metadata" (VList md)
   end) ;;
  let resp := sent_response snt in
  let response_text :=
    if PyStr.truthy (resp_text resp) then resp_text resp else no_answer in
  let final_text :=
    "**Question:**" ++ nl ++ prompt ++ nl ++ nl ++ "**Answer:**" ++ nl
      ++ response_text in
  edit wait_msg final_text (Some MARKDOWN) ;;
  match images resp with
  | [] => ret tt
  | imgs => relay_images m 0 imgs
  end.

(** Lines 161-187: send the prompt and relay the answer. *)
Definition ask_and_relay (m : message) (prompt : string) (wait_msg : msgref)
    (ch : chat) : M unit :=
  dl <- gets downloaded_files ;;
  let files_arg := match dl with [] => None | _ => Some dl end in
  snt <- send_message ch prompt files_arg ;;
  relay_response m prompt wait_msg snt.

(** Lines 145-187: the suite of the outer [try]. *)
Definition gemini_body (m : message) (prompt : string) (wait_msg : msgref)
    : M unit :=
  fl <- _download_replied_media m ;;
  modify (with_downloaded fl) ;;
  cl <- get_client ;;
  ch <- open_chat cl ;;
  ask_and_relay m prompt wait_msg ch.

(** Lines 189-192: the two [except] clauses. *)
Definition error_text (e : exn) : string :=
  match e with
  | ValueError msg => "❌ " ++ msg
  | OtherException _ => generic_error
  end.

Definition on_error (wait_msg : msgref) (e : exn) : M unit :=
  edit wait_msg (error_text e) None ;; ret tt.

(** Lines 193-197: the [finally] clause. *)
Definition cleanup : M unit :=
  dl <- gets downloaded_files ;;
  for_each dl _safe_remove ;;
  gl <- gets generated_image_paths ;;
  for_each gl _safe_remove.

(** Lines 139-197, once the prompt is known. *)
Definition gemini_run (m : message) (prompt : string) : M unit :=
  wait_msg <- respond m thinking ;;
  modify (with_downloaded []) ;;
  modify (with_generated []) ;;
  try_finally
    (try_except (gemini_body m prompt wait_msg) (on_error wait_msg))
    cleanup.

Definition gemini_query (m : message) : M unit :=
  if (List.length (command m) <? 2)%nat then
    respond m gemini_usage ;; ret tt
  else
    let prompt := PyStr.strip (PyStr.join " " (List.tl (command m))) in
    if negb (PyStr.truthy prompt) then
      respond m prompt_empty ;; ret tt
    else gemini_run m prompt.

End Module.

Open Scope list_scope.

(** * Specification vocabulary *)

(** ** Relating the state before and after a run

    [keeps R m]: whatever the outcome of [m], the states before and after
    are related by [R].  For a preorder [R] the property goes through every
    control structure of the handlers. *)

Definition keeps (R : state -> state -> Prop) {A} (m : M A) : Prop :=
  forall s, R s (m s).2.

(** Only events accepted by [P] were appended to the trace. *)
Definition appends (P : event -> bool) (s s' : state) : Prop :=
  exists t, trace s' = trace s ++ t /\ Forall (fun e => P e = true) t.

(** The settings store is the same outside the given keys. *)
Definition db_frame (keys : list (string * string)) (s s' : state) : Prop :=
  forall k, k ∉ keys -> db s' !! k = db s !! k.

(** ** The steps of [gemini_query]

    Each external call belongs to one step of the handler: the first answer
    to the user (0), the download of the replied-to media (1), the settings
    and the client up to the open chat (2), the request (3), the relay of the
    response (4), the error report (5), the removal of the temp files (6). *)

Definition phase (e : event) : nat :=
  match e with
  | EvReply _ => 0
  | EvEdit Incoming _ _ => 0
  | EvDownload _ => 1
  | EvDbGet _ _ => 2
  | EvNewClient _ _ => 2
  | EvClientInit _ => 2
  | EvCookiesGet _ => 2
  | EvStartChat _ _ _ => 2
  | EvDbDelete _ _ => 2
  | EvDbSet _ key _ => if String.eqb key "cookie" then 2 else 4
  | EvSendMessage _ _ _ => 3
  | EvEdit WaitMsg _ (Some _) => 4
  | EvSave _ _ _ => 4
  | EvSendPhoto _ _ _ => 4
  | EvAppSendMessage _ _ _ => 4
  | EvEdit WaitMsg _ None => 5
  | EvUnlink _ => 6
  end.

Definition at_phase (p : nat) (e : event) : bool := Nat.eqb (phase e) p.

(** The events appended between [s] and [s'] are in steps [lo..hi] and in
    the order of the steps. *)
Definition phased (lo hi : nat) (s s' : state) : Prop :=
  exists t, trace s' = trace s ++ t
            /\ Forall (fun e => lo <= phase e <= hi) t
            /\ Sorted le (map phase t).

(** ** Vocabulary of the statements *)

(** The events appended by running [m] from [s]. *)
Definition new_events {A} (m : M A) (s : state) : list event :=
  List.skipn (List.length (trace s)) (trace (m s).2).

(** The keys the module owns in the settings store. *)
Definition settings_keys : list (string * string) :=
  [("custom.gemini", "cookie"); ("custom.gemini", "chat_metadata")]%string.

(** A write or a delete in the settings store stays on those keys. *)
Definition write_ok (e : event) : bool :=
  match e with
  | EvDbSet ns key _ | EvDbDelete ns key =>
      String.eqb ns "custom.gemini"
      && (String.eqb key "cookie" || String.eqb key "chat_metadata")
  | _ => true
  end.

Definition is_unlink (e : event) : bool :=
  match e with EvUnlink _ => true | _ => false end.

Definition is_start_chat (e : event) : bool :=
  match e with EvStartChat _ _ _ => true | _ => false end.

Definition is_download (e : event) : bool :=
  match e with EvDownload _ => true | _ => false end.

(** Reading the settings or constructing the remote-service client. *)
Definition is_settings_or_client (e : event) : bool :=
  match e with
  | EvDbGet _ _ | EvNewClient _ _ | EvClientInit _ => true
  | _ => false
  end.

(** In the trace [t], every [P] event comes before every [Q] event. *)
Definition all_before (P Q : event -> bool) (t : list event) : Prop :=
  forall i j e1 e2,
    t !! i = Some e1 -> t !! j = Some e2 -> P e1 = true -> Q e2 = true ->
    (i < j)%nat.

(** The replied-to message carries one of the six media the download
    recognises. *)
Definition recognized_media (r : replied) : bool :=
  match document r, audio r, video r, voice r, video_note r, photo r with
  | None, None, None, None, None, None => false
  | _, _, _, _, _, _ => true
  end.

Definition has_media (m : message) : bool :=
  match reply_to_message m with
  | Some r => recognized_media r
  | None => false
  end.

(** The temp file of the generated image of index [i]. *)
Definition generated_path (i : nat) : Path :=
  PyPath.join TEMP_IMAGE_DIR ("gemini_gen_" ++ str_of_nat i ++ ".png")%string.

(** ** Sample worlds, states and messages *)

Module Sample.

(** A world where every call succeeds, except the ones the arguments
    single out: the photos of [bad_photos] are refused, the warning is
    refused when [warn_fails], a chat cannot be started from stored
    metadata when [stale]. *)
Definition world_of (resp : response) (new_ts : option string)
    (bad_photos : list string) (warn_fails stale : bool) : world :=
  {| reply_res := fun _ => Ok tt;
     edit_res := fun _ _ => Ok tt;
     download_res := fun _ => Ok true;
     init_res := fun _ => Ok tt;
     cookies_get_res := fun _ => Ok new_ts;
     start_chat_res := fun _ md _ =>
       match md with
       | Some _ => if stale then Raise (ValueError "metadata cannot exceed 3 elements")
                   else Ok tt
       | None => Ok tt
       end;
     send_message_res := fun _ _ _ =>
       Ok {| sent_response := resp; sent_metadata := ["cid"; "rid"; "rcid"]%string |};
     save_res := fun _ _ => Ok true;
     send_photo_res := fun _ ph _ =>
       if existsb (String.eqb ph) bad_photos then Raise (OtherException "RPCError")
       else Ok tt;
     app_send_message_res := fun _ _ _ =>
       if warn_fails then Raise (OtherException "FloodWait") else Ok tt;
     unlink_res := fun _ => Ok tt |}.

Definition text_only : response := {| resp_text := "hi"; images := [] |}.

Definition fine : world := world_of text_only None [] false false.

Definition state_of (d : gmap (string * string) dbval) : state :=
  {| db := d; files := ∅; dirs := ∅; environ := ∅;
     downloaded_files := []; generated_image_paths := []; trace := [] |}.

Definition blank : state := state_of ∅.

Definition configured : state :=
  state_of {[ ("custom.gemini", "cookie")%string := VStr "PSID|TS" ]}.

Definition with_history : state :=
  state_of
    (<[ ("custom.gemini", "chat_metadata")%string
        := VList ["c1"; "r1"; "rc1"]%string ]>
       {[ ("custom.gemini", "cookie")%string := VStr "PSID|TS" ]}).

Definition no_media : replied :=
  {| document := None; audio := None; video := None; voice := None;
     video_note := None; photo := None |}.

(** A reply to a document sent without a file name. *)
Definition bare_document : replied :=
  {| document := Some {| file_unique_id := "AgADdoc"; file_name := None |};
     audio := None; video := None; voice := None; video_note := None;
     photo := None |}.

(** A reply to a message that carries a named document, an audio and a
    photo at once. *)
Definition crowded : replied :=
  {| document := Some {| file_unique_id := "AgADdoc"; file_name := Some "report.pdf" |};
     audio := Some {| file_unique_id := "AgADaud"; file_name := Some "song.mp3" |};
     video := None; voice := None; video_note := None;
     photo := Some {| file_unique_id := "AgADpic"; file_name := None |} |}.

Definition ask (r : option replied) : message :=
  {| msg_id := 7; chat_id := 42; from_user := Some false;
     command := ["gemini"; "hello"]%string; text := Some "/gemini hello"%string;
     reply_to_message := r |}.

Definition set_cookie (arg : string) : message :=
  {| msg_id := 8; chat_id := 42; from_user := Some true;
     command := ["set_gemini"; arg]%string;
     text := Some ("/set_gemini " ++ arg)%string;
     reply_to_message := None |}.

End Sample.

(** The ways into the module: its import and its two handlers. *)
Inductive entry : Type :=
| Import
| SetGemini (m : message)
| GeminiQuery (m : message).

Definition run_entry (w : world) (e : entry) : M unit :=
  match e with
  | Import => module_init
  | SetGemini m => set_gemini w m
  | GeminiQuery m => gemini_query w m
  end.

(** The directories the module creates. *)
Definition module_dirs : gset string :=
  {[ TEMP_IMAGE_DIR; TEMP_FILE_DIR; GEMINI_COOKIE_DIR ]}.

(** No directory was created outside [D]. *)
Definition dirs_within (D : gset string) (s s' : state) : Prop :=
  dirs s' ⊆ dirs s ∪ D.

(** The destination the download loop settles on: that of the first
    attribute of [attrs] the replied-to message carries. *)
Fixpoint first_media (r : replied) (attrs : list string) : option Path :=
  match attrs with
  | [] => None
  | attr :: rest =>
      match getattr_media r attr with
      | Some media_obj => Some (media_dest attr media_obj)
      | None => first_media r rest
      end
  end.

(** The one file [_download_replied_media] asks for, if any. *)
Definition picked (m : message) : option Path :=
  match reply_to_message m with
  | None => None
  | Some r =>
      match first_media r media_attrs, photo r with
      | Some dest, _ => Some dest
      | None, Some ph =>
          Some (PyPath.join TEMP_FILE_DIR (file_unique_id ph ++ ".jpg")%string)
      | None, None => None
      end
  end.

(** [set_gemini] stores the argument [arg] and answers with the success
    message, and [get_client] then refuses the stored cookie. *)
Definition stored_but_unusable (w : world) (s : state) (arg : string) : Prop :=
  let s1 := (set_gemini w (Sample.set_cookie arg) s).2 in
  new_events (set_gemini w (Sample.set_cookie arg)) s
  = [EvDbSet "custom.gemini" "cookie" (VStr arg); EvEdit Incoming set_success None]
  /\ db s1 !! ("custom.gemini", "cookie")%string = Some (VStr arg)
  /\ (get_client w s1).1
     = Raise (ValueError "Invalid cookie values. Both parts must be non-empty.").

(** A response with one generated image and no text to speak of. *)
Definition one_generated : response :=
  {| resp_text := "here"; images := [GeneratedImage "http://g/1"] |}.

(** The chat client refuses the photo sent from the saved file. *)
Definition photo_refused : world :=
  Sample.world_of one_generated None [generated_path 0] false false.

(** The chat [client.start_chat(model=DEFAULT_MODEL)] gives. *)
Definition fresh_chat (cl : client) : chat :=
  {| chat_client := cl; chat_start_metadata := None; chat_model := DEFAULT_MODEL |}.

Definition not_start_chat (e : event) : bool := negb (is_start_chat e).

(** The calls of lines 149-157 when the stored metadata [md] is refused. *)
Definition recovery_events (cl : client) (md : dbval) : list event :=
  [ EvDbGet "custom.gemini" "chat_metadata";
    EvStartChat cl (Some md) DEFAULT_MODEL;
    EvStartChat cl None DEFAULT_MODEL;
    EvDbDelete "custom.gemini" "chat_metadata" ].

(** *** What the image loop owes to the images of a response

    Written from the claim, to be compared with [relay_images]. *)

(** The photo [ph] sent to the chat of [m] in answer to [m], with the one
    warning right behind it when the chat client refuses the photo. *)
Definition photo_sent (w : world) (m : message) (ph : string) : list event :=
  EvSendPhoto (chat_id m) ph (msg_id m)
  :: match send_photo_res w (chat_id m) ph (msg_id m) with
     | Ok _ => []
     | Raise _ => [EvAppSendMessage (chat_id m) image_warning (msg_id m)]
     end.

(** An image sent by its url, when the url is not empty. *)
Definition url_sent (w : world) (m : message) (u : string) : list event :=
  match u with
  | EmptyString => []
  | _ => photo_sent w m u
  end.

(** The generated image of index [i] is saved to its temp file: [image.save]
    returned, and it wrote the file or the file was among [fs] already. *)
Definition saved_to_file (w : world) (fs : gset Path) (i : nat) (img : image)
    : bool :=
  match save_res w img ("gemini_gen_" ++ str_of_nat i ++ ".png") with
  | Ok wrote => wrote || bool_decide (generated_path i ∈ fs)
  | Raise _ => false
  end.

(** The calls owed to the image of index [i], [fs] being the files that are
    there before the loop: a generated image is saved, then sent from its
    temp file when it is saved there, by its url otherwise; an image of the
    web is sent by its url. *)
Definition image_relayed (w : world) (m : message) (fs : gset Path) (i : nat)
    (img : image) : list event :=
  match img with
  | GeneratedImage u =>
      EvSave img TEMP_IMAGE_DIR ("gemini_gen_" ++ str_of_nat i ++ ".png")
      :: (if saved_to_file w fs i img then photo_sent w m (generated_path i)
          else url_sent w m u)
  | WebImage u => url_sent w m u
  | OtherImage _ => []
  end.

(** The same for the images [imgs], numbered from [i] on, one image after
    the other. *)
Fixpoint images_relayed (w : world) (m : message) (fs : gset Path) (i : nat)
    (imgs : list image) : list event :=
  match imgs with
  | [] => []
  | img :: rest => image_relayed w m fs i img ++ images_relayed w m fs (S i) rest
  end.

(** A response with two images of the web. *)
Definition two_web : response :=
  {| resp_text := "here";
     images := [WebImage "http://w/1"; WebImage "http://w/2"] |}.

(** The chat client refuses the first photo; with [warn_fails] it refuses
    the warning too. *)
Definition first_refused (warn_fails : bool) : world :=
  Sample.world_of two_web None ["http://w/1"%string] warn_fails false.

(** A response with a generated image, an image of the web without a url
    and an image of the web. *)
Definition three_images : response :=
  {| resp_text := "here";
     images := [GeneratedImage "http://g/1"; WebImage ""; WebImage "http://w/2"] |}.

(** The chat client refuses the photo sent from the saved file. *)
Definition file_refused : world :=
  Sample.world_of three_images None [generated_path 0] false false.

(** ** Vocabulary of the further properties *)

(** [" ".join(message.command[1:]).strip()], the prompt of line 135. *)
Definition prompt_of (m : message) : string :=
  PyStr.strip (PyStr.join " " (List.tl (command m))).

(** The call a handler answers the message [m] with: an edit of [m] when it
    is the user's own, a reply otherwise. *)
Definition answer (m : message) (t : string) : event :=
  if is_self m then EvEdit Incoming t None else EvReply t.

(** What the chat client says to that call. *)
Definition answer_res (w : world) (m : message) (t : string) : result unit :=
  if is_self m then edit_res w Incoming t else reply_res w t.

(** The first answer of [gemini_query]: the usage, the empty-prompt message
    or the Thinking message. *)
Definition first_answer (m : message) : string :=
  if (List.length (command m) <? 2)%nat then gemini_usage
  else if PyStr.truthy (prompt_of m) then thinking
  else prompt_empty.

(** The answer of a handler goes the way the sender allows: an edit of the
    incoming message when it is the user's own, a reply otherwise. *)
Definition route_ok (self : bool) (e : event) : bool :=
  match e with
  | EvEdit Incoming _ _ => self
  | EvReply _ => negb self
  | _ => true
  end.

Definition is_send_message (e : event) : bool :=
  match e with EvSendMessage _ _ _ => true | _ => false end.

(** [s.startswith(pre)] *)
Fixpoint starts_with (pre s : string) : bool :=
  match pre, s with
  | EmptyString, _ => true
  | String a pre', String b s' => Ascii.eqb a b && starts_with pre' s'
  | String _ _, EmptyString => false
  end.

(** A path under one of the two temp directories of the module. *)
Definition is_temp (p : Path) : bool :=
  starts_with "temp_gemini_files/" p || starts_with "temp_gemini_images/" p.

(** An [unlink] is on a temp path. *)
Definition unlink_temp (e : event) : bool :=
  match e with EvUnlink p => is_temp p | _ => true end.

(** A world where the chat client answers and everything else raises. *)
Definition hostile : world :=
  {| reply_res := fun _ => Ok tt;
     edit_res := fun _ _ => Ok tt;
     download_res := fun _ => Raise (OtherException "RPCError");
     init_res := fun _ => Raise (OtherException "AuthError");
     cookies_get_res := fun _ => Raise (OtherException "KeyError");
     start_chat_res := fun _ _ _ => Raise (ValueError "metadata cannot exceed 3 elements");
     send_message_res := fun _ _ _ => Raise (OtherException "APIError");
     save_res := fun _ _ => Raise (OtherException "HTTPError");
     send_photo_res := fun _ _ _ => Raise (OtherException "RPCError");
     app_send_message_res := fun _ _ _ => Raise (OtherException "FloodWait");
     unlink_res := fun _ => Raise (OtherException "PermissionError") |}.

(** A world where the chat client refuses every reply. *)
Definition mute : world :=
  {| reply_res := fun _ => Raise (OtherException "ChatWriteForbidden");
     edit_res := fun _ _ => Raise (OtherException "MessageIdInvalid");
     download_res := fun _ => Ok true;
     init_res := fun _ => Ok tt;
     cookies_get_res := fun _ => Ok None;
     start_chat_res := fun _ _ _ => Ok tt;
     send_message_res := fun _ _ _ =>
       Ok {| sent_response := Sample.text_only; sent_metadata := [] |};
     save_res := fun _ _ => Ok true;
     send_photo_res := fun _ _ _ => Ok tt;
     app_send_message_res := fun _ _ _ => Ok tt;
     unlink_res := fun _ => Ok tt |}.

(** The number of requests to the AI service in a trace. *)
Definition count_sends (t : list event) : nat :=
  List.length (List.filter is_send_message t).

(** At most [n] requests were appended between [s] and [s']. *)
Definition sends_le (n : nat) (s s' : state) : Prop :=
  exists t, trace s' = trace s ++ t /\ (count_sends t <= n)%nat.

Definition not_send_message (e : event) : bool := negb (is_send_message e).

(** A request carries the given prompt, which is not empty, on a chat of
    the default model. *)
Definition request_ok (prompt : string) (e : event) : bool :=
  match e with
  | EvSendMessage ch p _ =>
      String.eqb p prompt && PyStr.truthy p
      && String.eqb (chat_model ch) DEFAULT_MODEL
  | _ => true
  end.

(** The two path lists of [gemini_query] hold temp paths only. *)
Definition temp_lists (s : state) : Prop :=
  Forall (fun p => is_temp p = true) (downloaded_files s)
  /\ Forall (fun p => is_temp p = true) (generated_image_paths s).

(** From temp lists, a run keeps them so and unlinks temp paths only. *)
Definition tidy (s s' : state) : Prop :=
  temp_lists s -> temp_lists s' /\ appends unlink_temp s s'.

(** [downloaded_files] is the same before and after. *)
Definition same_downloads (s s' : state) : Prop :=
  downloaded_files s' = downloaded_files s.

(** A world where the chat client, the download and the file system
    answer, and the AI service refuses everything. *)
Definition hostile_service : world :=
  {| reply_res := fun _ => Ok tt;
     edit_res := fun _ _ => Ok tt;
     download_res := fun _ => Ok true;
     init_res := fun _ => Raise (OtherException "AuthError");
     cookies_get_res := fun _ => Raise (OtherException "KeyError");
     start_chat_res := fun _ _ _ => Raise (ValueError "metadata cannot exceed 3 elements");
     send_message_res := fun _ _ _ => Raise (OtherException "APIError");
     save_res := fun _ _ => Raise (OtherException "HTTPError");
     send_photo_res := fun _ _ _ => Ok tt;
     app_send_message_res := fun _ _ _ => Ok tt;
     unlink_res := fun _ => Ok tt |}.

(** * Proofs *)

(** ** Relations kept by every control structure *)


Section Keeps.

Context (R : state -> state -> Prop) `{!PreOrder R}.

Lemma keeps_ret {A} (a : A) : keeps R (ret a).
Proof. intros s; simpl; reflexivity. Qed.

Lemma keeps_raise {A} (e : exn) : keeps R (@raise A e).
Proof. intros s; simpl; reflexivity. Qed.

Lemma keeps_gets {A} (f : state -> A) : keeps R (gets f).
Proof. intros s; simpl; reflexivity. Qed.

Lemma keeps_bind {A B} (m : M A) (f : A -> M B) :
  keeps R m -> (forall a, keeps R (f a)) -> keeps R (bind m f).
Proof.
  intros Hm Hf s; unfold bind.
  specialize (Hm s); destruct (m s) as [[a|e] s1]; simpl in *; [|exact Hm].
  etransitivity; [exact Hm | apply Hf].
Qed.

Lemma keeps_try_except {A} (m : M A) (h : exn -> M A) :
  keeps R m -> (forall e, keeps R (h e)) -> keeps R (try_except m h).
Proof.
  intros Hm Hh s; unfold try_except.
  specialize (Hm s); destruct (m s) as [[a|e] s1]; simpl in *; [exact Hm|].
  etransitivity; [exact Hm | apply Hh].
Qed.

Lemma keeps_try_finally {A} (m : M A) (f : M unit) :
  keeps R m -> keeps R f -> keeps R (try_finally m f).
Proof.
  intros Hm Hf s; unfold try_finally.
  specialize (Hm s); destruct (m s) as [r s1]; simpl in *.
  specialize (Hf s1); destruct (f s1) as [[u|e] s2]; simpl in *;
    etransitivity; eauto.
Qed.

Lemma keeps_for_each {A} (l : list A) (body : A -> M unit) :
  (forall x, keeps R (body x)) -> keeps R (for_each l body).
Proof.
  intros Hb; induction l as [|x l IH]; simpl.
  - apply keeps_ret.
  - apply keeps_bind; [apply Hb | intros _; exact IH].
Qed.

Lemma keeps_modify (f : state -> state) :
  (forall s, R s (f s)) -> keeps R (modify f).
Proof. intros Hf s; apply Hf. Qed.

Lemma keeps_call {A} (e : event) (r : result A) (eff : A -> state -> state) :
  (forall s, R s (log e s)) -> (forall a s, R s (eff a s)) -> keeps R (call e r eff).
Proof.
  intros Hl He s; unfold call; destruct r; simpl; [|apply Hl].
  etransitivity; [apply Hl | apply He].
Qed.

End Keeps.


#[local] Instance appends_preorder P : PreOrder (appends P).
Proof.
  split.
  - intros s; exists []; split; [by rewrite app_nil_r | constructor].
  - intros s1 s2 s3 (t1 & E1 & F1) (t2 & E2 & F2); exists (t1 ++ t2); split.
    + by rewrite E2, E1, app_assoc.
    + by apply Forall_app.
Qed.

#[local] Instance db_frame_preorder keys : PreOrder (db_frame keys).
Proof.
  split.
  - by intros s k _.
  - intros s1 s2 s3 H1 H2 k Hk; rewrite H2, H1; auto.
Qed.

Lemma appends_log (P : event -> bool) e s : P e = true -> appends P s (log e s).
Proof. intros He; exists [e]; split; [reflexivity | by constructor]. Qed.

Lemma appends_same (P : event -> bool) s s' : trace s' = trace s -> appends P s s'.
Proof. intros E; exists []; split; [by rewrite app_nil_r | constructor]. Qed.

Lemma db_frame_same keys s s' : db s' = db s -> db_frame keys s s'.
Proof. by intros E k _; rewrite E. Qed.

Lemma db_frame_insert keys k v s :
  k ∈ keys -> db_frame keys s (with_db (insert k v) s).
Proof.
  intros Hk k' Hk'; simpl; apply lookup_insert_ne; intros ->; contradiction.
Qed.

Lemma db_frame_delete keys k s :
  k ∈ keys -> db_frame keys s (with_db (delete k) s).
Proof.
  intros Hk k' Hk'; simpl; apply lookup_delete_ne; intros ->; contradiction.
Qed.

Section KeepsPrimitives.

Context (R : state -> state -> Prop) `{!PreOrder R}.

Lemma keeps_db_get ns key :
  (forall s, R s (log (EvDbGet ns key) s)) -> keeps R (db_get ns key).
Proof. intros H s; apply H. Qed.

Lemma keeps_db_set ns key v :
  (forall s, R s (log (EvDbSet ns key v) s)) ->
  (forall s, R s (with_db (insert (ns, key) v) s)) ->
  keeps R (db_set ns key v).
Proof. intros H1 H2 s; simpl; etransitivity; [apply H1 | apply H2]. Qed.

Lemma keeps_db_delete ns key :
  (forall s, R s (log (EvDbDelete ns key) s)) ->
  (forall s, R s (with_db (delete (ns, key)) s)) ->
  keeps R (db_delete ns key).
Proof. intros H1 H2 s; simpl; etransitivity; [apply H1 | apply H2]. Qed.

End KeepsPrimitives.

#[local] Instance dirs_within_preorder D : PreOrder (dirs_within D).
Proof.
  split.
  - intros s x Hx; apply elem_of_union; by left.
  - intros s1 s2 s3 H12 H23 x Hx.
    apply H23, elem_of_union in Hx as [Hx|Hx]; [by apply H12|].
    apply elem_of_union; by right.
Qed.

Lemma dirs_within_same D s s' : dirs s' = dirs s -> dirs_within D s s'.
Proof. intros E x Hx; rewrite E in Hx; apply elem_of_union; by left. Qed.

Lemma dirs_within_mkdir D p s :
  p ∈ D -> dirs_within D s (with_dirs (fun d => {[p]} ∪ d) s).
Proof.
  intros Hp x Hx; simpl in Hx.
  apply elem_of_union in Hx as [Hx|Hx]; apply elem_of_union; [|by left].
  apply elem_of_singleton in Hx as ->; by right.
Qed.

(** Leaves: one logged event or one field update. *)
Ltac keeps_leaf :=
  first
    [ apply appends_log; reflexivity
    | apply appends_same; reflexivity
    | apply db_frame_same; reflexivity
    | apply db_frame_insert; set_solver
    | apply db_frame_delete; set_solver
    | apply dirs_within_same; reflexivity
    | apply dirs_within_mkdir; set_solver ].

(** One structural step on a goal [keeps R m]. *)
Ltac keeps_step :=
  lazymatch goal with
  | |- keeps _ (ret _) => apply keeps_ret; tc_solve
  | |- keeps _ (raise _) => apply keeps_raise; tc_solve
  | |- keeps _ (gets _) => apply keeps_gets; tc_solve
  | |- keeps _ (bind _ _) => apply keeps_bind; [tc_solve | | intros ?]
  | |- keeps _ (try_except _ _) => apply keeps_try_except; [tc_solve | | intros ?]
  | |- keeps _ (try_finally _ _) => apply keeps_try_finally; [tc_solve | | ]
  | |- keeps _ (for_each _ _) => apply keeps_for_each; [tc_solve | intros ?]
  | |- keeps _ (modify _) => apply keeps_modify; intros ?; keeps_leaf
  | |- keeps _ (call _ _ _) =>
      apply keeps_call;
      [ tc_solve
      | intros ?; keeps_leaf
      | let a := fresh "a" in intros a ?; try destruct a; keeps_leaf ]
  | |- keeps _ (db_get _ _) => apply keeps_db_get; intros ?; keeps_leaf
  | |- keeps _ (db_set _ _ _) =>
      apply keeps_db_set; [tc_solve | intros ?; keeps_leaf | intros ?; keeps_leaf ]
  | |- keeps _ (db_delete _ _) =>
      apply keeps_db_delete; [tc_solve | intros ?; keeps_leaf | intros ?; keeps_leaf ]
  | |- keeps _ (match ?x with _ => _ end) => destruct x
  end.

(** The primitives and helpers that are unfolded on sight. *)
Ltac keeps_unfold :=
  unfold _safe_remove, path_exists, unlink, reply, edit, download, image_save,
    send_photo, app_send_message, mkdir, respond, start_chat, send_message,
    send_by_url, on_error, _save_generated_image, relay_image, relay_step,
    open_chat,
    relay_response, ask_and_relay, get_client, _download_replied_media,
    gemini_body, cleanup,
    gemini_run, gemini_query, set_gemini, module_init.

Ltac keeps_auto := repeat (keeps_unfold; keeps_step).

Section KeepsModule.

Variable w : world.
Context (R : state -> state -> Prop) `{!PreOrder R}.

(** The loops, given their bodies. *)

Lemma keeps_media_loop r attrs acc :
  (forall d, keeps R (download w d)) -> keeps R (media_loop w r attrs acc).
Proof.
  intros Hd; induction attrs as [|attr rest IH]; simpl.
  - keeps_auto.
  - destruct (getattr_media r attr); [|exact IH].
    apply keeps_bind; [tc_solve | apply Hd | intros _; apply keeps_ret; tc_solve].
Qed.

Lemma keeps_relay_images m i imgs :
  (forall j img, keeps R (relay_step w m j img)) ->
  keeps R (relay_images w m i imgs).
Proof.
  intros Hr; revert i; induction imgs as [|img rest IH]; intros i; simpl.
  - apply keeps_ret; tc_solve.
  - apply keeps_bind; [tc_solve | apply Hr | intros _; apply IH].
Qed.

End KeepsModule.

(** Any handler of the module, loops included. *)
Ltac keeps_fun :=
  repeat first
    [ keeps_unfold; keeps_step
    | apply keeps_media_loop; [tc_solve | intros ?]
    | apply keeps_relay_images; [tc_solve | intros ? ?] ].

(** ** The order of the steps of [gemini_query] *)


Lemma Sorted_le_app (l1 l2 : list nat) (mid : nat) :
  Sorted le l1 -> Sorted le l2 ->
  Forall (fun x => x <= mid) l1 -> Forall (fun y => mid <= y) l2 ->
  Sorted le (l1 ++ l2).
Proof.
  intros S1 S2 F1 F2; induction l1 as [|x l1 IH]; simpl; [exact S2|].
  apply Sorted_inv in S1 as [S1 H1]; apply Forall_cons in F1 as [Hx F1].
  constructor; [by apply IH|].
  destruct l1 as [|y l1]; simpl.
  - destruct l2 as [|z l2]; constructor.
    apply Forall_cons in F2 as [Hz _]; lia.
  - constructor; by apply HdRel_inv in H1.
Qed.

Lemma phased_weaken lo hi lo' hi' s s' :
  lo' <= lo -> hi <= hi' -> phased lo hi s s' -> phased lo' hi' s s'.
Proof.
  intros Hlo Hhi (t & E & F & S); exists t; repeat split; auto.
  eapply Forall_impl; [exact F | simpl; intros; lia].
Qed.

Lemma phased_trans lo mid hi s1 s2 s3 :
  lo <= mid -> mid <= hi ->
  phased lo mid s1 s2 -> phased mid hi s2 s3 -> phased lo hi s1 s3.
Proof.
  intros Hlo Hhi (t1 & E1 & F1 & S1) (t2 & E2 & F2 & S2).
  exists (t1 ++ t2); repeat split.
  - by rewrite E2, E1, app_assoc.
  - apply Forall_app; split; (eapply Forall_impl; [eassumption | simpl; intros; lia]).
  - rewrite map_app; apply Sorted_le_app with (mid := mid); auto.
    + apply Forall_map; eapply Forall_impl; [exact F1 | simpl; intros; lia].
    + apply Forall_map; eapply Forall_impl; [exact F2 | simpl; intros; lia].
Qed.

Lemma appends_phased p s s' : appends (at_phase p) s s' -> phased p p s s'.
Proof.
  intros (t & E & F); exists t; repeat split; auto.
  - eapply Forall_impl; [exact F|]; unfold at_phase; simpl.
    intros e He; apply Nat.eqb_eq in He; lia.
  - clear E; induction F as [|e t He F IH]; simpl; constructor; auto.
    destruct F as [|e' t' He' F]; simpl; constructor.
    unfold at_phase in *; apply Nat.eqb_eq in He, He'; lia.
Qed.

Lemma keeps_at_phase {A} p lo hi (m : M A) :
  lo <= p -> p <= hi -> keeps (appends (at_phase p)) m -> keeps (phased lo hi) m.
Proof.
  intros Hlo Hhi H s; eapply phased_weaken; [| |apply appends_phased, H]; lia.
Qed.

Section Sequencing.

Context {A B : Type} (lo mid hi : nat) (Hlo : lo <= mid) (Hhi : mid <= hi).

Lemma seq_bind (m : M A) (f : A -> M B) :
  keeps (phased lo mid) m -> (forall a, keeps (phased mid hi) (f a)) ->
  keeps (phased lo hi) (bind m f).
Proof.
  intros Hm Hf s; unfold bind.
  specialize (Hm s); destruct (m s) as [[a|e] s1]; simpl in *.
  - eapply phased_trans; [| |exact Hm|apply Hf]; lia.
  - eapply phased_weaken; [| |exact Hm]; lia.
Qed.

(** The same, knowing what [m] returns. *)
Lemma seq_bind_post (Q : A -> Prop) (m : M A) (f : A -> M B) :
  (forall s a s', m s = (Ok a, s') -> Q a) ->
  keeps (phased lo mid) m -> (forall a, Q a -> keeps (phased mid hi) (f a)) ->
  keeps (phased lo hi) (bind m f).
Proof.
  intros HQ Hm Hf s; unfold bind.
  specialize (Hm s); specialize (HQ s); destruct (m s) as [[a|e] s1]; simpl in *.
  - eapply phased_trans; [| |exact Hm|apply Hf; eapply HQ; eauto]; lia.
  - eapply phased_weaken; [| |exact Hm]; lia.
Qed.

Lemma seq_try_except (m : M A) (h : exn -> M A) :
  keeps (phased lo mid) m -> (forall e, keeps (phased mid hi) (h e)) ->
  keeps (phased lo hi) (try_except m h).
Proof.
  intros Hm Hh s; unfold try_except.
  specialize (Hm s); destruct (m s) as [[a|e] s1]; simpl in *.
  - eapply phased_weaken; [| |exact Hm]; lia.
  - eapply phased_trans; [| |exact Hm|apply Hh]; lia.
Qed.

Lemma seq_try_finally (m : M A) (f : M unit) :
  keeps (phased lo mid) m -> keeps (phased mid hi) f ->
  keeps (phased lo hi) (try_finally m f).
Proof.
  intros Hm Hf s; unfold try_finally.
  specialize (Hm s); destruct (m s) as [r s1]; simpl in *.
  specialize (Hf s1); destruct (f s1) as [[u|e] s2]; simpl in *;
    (eapply phased_trans; [| |exact Hm|exact Hf]; lia).
Qed.

End Sequencing.

Lemma respond_returns w m t s a s' : respond w m t s = (Ok a, s') -> a = WaitMsg.
Proof.
  unfold respond, edit, reply, bind, call, ret.
  destruct (is_self m); [destruct (edit_res w Incoming t) | destruct (reply_res w t)];
    intros [= <- _] || intros [=]; reflexivity.
Qed.

Section StepOrder.

Variable w : world.

(** A step that stays in one phase [p] fits any window around [p]. *)
Ltac one_phase p := apply (keeps_at_phase p); [lia | lia | keeps_fun].

Lemma ask_and_relay_phased m prompt ch :
  keeps (phased 3 4) (ask_and_relay w m prompt WaitMsg ch).
Proof.
  unfold ask_and_relay.
  apply (seq_bind 3 3 4); [lia | lia | one_phase 3 | intros dl].
  apply (seq_bind 3 3 4); [lia | lia | one_phase 3 | intros snt].
  one_phase 4.
Qed.

Lemma gemini_body_phased m prompt :
  keeps (phased 1 4) (gemini_body w m prompt WaitMsg).
Proof.
  unfold gemini_body.
  apply (seq_bind 1 1 4); [lia | lia | one_phase 1 | intros fl].
  apply (seq_bind 1 1 4); [lia | lia | one_phase 1 | intros _].
  apply (seq_bind 1 2 4); [lia | lia | one_phase 2 | intros cl].
  apply (seq_bind 2 2 4); [lia | lia | one_phase 2 | intros ch].
  intros s; eapply phased_weaken; [| |apply ask_and_relay_phased]; lia.
Qed.

Lemma gemini_run_phased m prompt : keeps (phased 0 6) (gemini_run w m prompt).
Proof.
  unfold gemini_run.
  apply (seq_bind_post 0 0 6) with (Q := fun a => a = WaitMsg);
    [lia | lia | intros s a s'; apply respond_returns | one_phase 0 | intros ? ->].
  apply (seq_bind 0 0 6); [lia | lia | one_phase 0 | intros _].
  apply (seq_bind 0 0 6); [lia | lia | one_phase 0 | intros _].
  apply (seq_try_finally 0 5 6); [lia | lia | | one_phase 6].
  apply (seq_try_except 0 4 5); [lia | lia | | intros e; one_phase 5].
  intros s; eapply phased_weaken; [| |apply gemini_body_phased]; lia.
Qed.

Lemma gemini_query_phased m : keeps (phased 0 6) (gemini_query w m).
Proof.
  unfold gemini_query.
  destruct (_ <? _)%nat; [one_phase 0|].
  destruct (negb _); [one_phase 0 | apply gemini_run_phased].
Qed.

End StepOrder.

Lemma new_events_app {A} (m : M A) s t :
  trace (m s).2 = trace s ++ t -> new_events m s = t.
Proof. intros E; unfold new_events; rewrite E; apply drop_app_length. Qed.

Lemma keeps_appends_new {A} P (m : M A) s :
  keeps (appends P) m -> Forall (fun e => P e = true) (new_events m s).
Proof. intros H; destruct (H s) as (t & E & F); by rewrite (new_events_app _ _ _ E). Qed.

(** ** C1: the order of the steps *)

(** The trace of a sample run: a reply to a document, with cookies set. *)
Example gemini_query_sample_trace :
  new_events (gemini_query Sample.fine (Sample.ask (Some Sample.bare_document)))
             Sample.configured
  = [ EvReply "<code>Thinking...</code>";
      EvDownload "temp_gemini_files/AgADdocNone";
      EvDbGet "custom.gemini" "cookie";
      EvNewClient "PSID" "TS";
      EvClientInit {| secure_1psid := "PSID"; secure_1psidts := "TS" |};
      EvCookiesGet {| secure_1psid := "PSID"; secure_1psidts := "TS" |};
      EvDbGet "custom.gemini" "chat_metadata";
      EvStartChat {| secure_1psid := "PSID"; secure_1psidts := "TS" |} None
        "gemini-2.5-flash";
      EvSendMessage
        {| chat_client := {| secure_1psid := "PSID"; secure_1psidts := "TS" |};
           chat_start_metadata := None; chat_model := "gemini-2.5-flash" |}
        "hello" (Some ["temp_gemini_files/AgADdocNone"]);
      EvDbSet "custom.gemini" "chat_metadata" (VList ["cid"; "rid"; "rcid"]);
      EvEdit WaitMsg
        ("**Question:**" ++ nl ++ "hello" ++ nl ++ nl ++ "**Answer:**" ++ nl ++ "hi")
        (Some MARKDOWN);
      EvUnlink "temp_gemini_files/AgADdocNone" ]%string.
Proof. vm_compute; reflexivity. Qed.

(** C1, as stated, fails: in the sample run the replied-to document is
    downloaded (second event) before the settings are read and the client
    is constructed (third and fourth events). *)
Lemma gemini_query_downloads_first :
  ~ all_before is_settings_or_client is_download
      (new_events (gemini_query Sample.fine (Sample.ask (Some Sample.bare_document)))
                  Sample.configured).
Proof.
  rewrite gemini_query_sample_trace; intros H.
  specialize (H 2%nat 1%nat _ _ eq_refl eq_refl eq_refl eq_refl); lia.
Qed.

Lemma sorted_lookup_le (l : list nat) (i j a b : nat) :
  Sorted le l -> (i <= j)%nat -> l !! i = Some a -> l !! j = Some b -> (a <= b)%nat.
Proof.
  intros S; apply Sorted_StronglySorted in S; [|intros x y z; lia].
  revert i j; induction S as [|x l S IH F]; intros i j Hij Hi Hj; [done|].
  destruct i as [|i], j as [|j]; simpl in *; try lia.
  - by simplify_eq.
  - simplify_eq. rewrite List.Forall_forall in F.
    apply F, list_elem_of_In, list_elem_of_lookup; eauto.
  - apply (IH i j); auto; lia.
Qed.

(** C1, amended to the order of the code: in every run of [gemini_query]
    the external calls come in the order first answer, download of the
    replied-to media, settings and client, request, relay of the response,
    error report, removal of the temp files; in particular every download
    comes before the settings are read and the client is constructed. *)
Theorem gemini_query_step_order (w : world) (m : message) (s : state) :
  Sorted le (map phase (new_events (gemini_query w m) s))
  /\ all_before is_download is_settings_or_client (new_events (gemini_query w m) s).
Proof.
  destruct (gemini_query_phased w m s) as (t & E & _ & S).
  rewrite (new_events_app _ _ _ E); split; [exact S|].
  intros i j e1 e2 Hi Hj H1 H2.
  destruct (decide (i < j)%nat) as [|Hge]; [done|exfalso].
  assert (phase e2 <= phase e1)%nat as Hle.
  { apply (sorted_lookup_le (map phase t) j i); [done | lia | |];
      rewrite list_lookup_fmap; [by rewrite Hj | by rewrite Hi]. }
  destruct e1; try discriminate H1; destruct e2; try discriminate H2;
    simpl in Hle; lia.
Qed.

(** ** C6: what the module persists *)

(** C6, as stated, fails on its last clause: importing the module on a
    blank system creates three directories, a persistent state that is not
    one of the two settings. *)
Lemma module_init_creates_dirs :
  db (module_init Sample.blank).2 = db Sample.blank
  /\ dirs Sample.blank = ∅
  /\ dirs (module_init Sample.blank).2
     = {[ "temp_gemini_images"; "temp_gemini_files"; "gemini_cookies" ]}%string.
Proof. repeat split; vm_compute; reflexivity. Qed.

(** C6, amended: whatever way the module is entered, every write and delete
    on the settings store is under the namespace [custom.gemini] and on the
    key [cookie] or [chat_metadata], every other entry of the store is left
    as it was, and outside the store the module creates no directory but
    its three own. *)
Theorem settings_writes_confined (w : world) (e : entry) (s : state) :
  Forall (fun ev => write_ok ev = true) (new_events (run_entry w e) s)
  /\ db_frame settings_keys s (run_entry w e s).2
  /\ dirs_within module_dirs s (run_entry w e s).2.
Proof.
  split; [|split].
  - apply keeps_appends_new; destruct e; simpl; keeps_fun.
  - revert s; change (keeps (db_frame settings_keys) (run_entry w e)).
    destruct e; simpl; keeps_fun.
  - revert s; change (keeps (dirs_within module_dirs) (run_entry w e)).
    destruct e; simpl; keeps_fun.
Qed.

(** ** C3: zero or one download *)

Lemma download_run w dest s :
  download w dest s
  = (match download_res w dest with Ok _ => Ok tt | Raise e => Raise e end,
     (download w dest s).2)
  /\ trace (download w dest s).2 = trace s ++ [EvDownload dest].
Proof.
  unfold download, bind, call, ret.
  destruct (download_res w dest) as [[]|e]; split; reflexivity.
Qed.

Lemma media_loop_run w r attrs acc s :
  media_loop w r attrs acc s
  = match first_media r attrs with
    | None => (Ok acc, s)
    | Some dest =>
        (match download_res w dest with
         | Ok _ => Ok (acc ++ [dest])
         | Raise e => Raise e
         end, (download w dest s).2)
    end.
Proof.
  induction attrs as [|attr rest IH]; simpl; [reflexivity|].
  destruct (getattr_media r attr) as [mo|]; [|exact IH].
  unfold bind; destruct (download_run w (media_dest attr mo) s) as [-> _].
  by destruct (download_res w _).
Qed.

(** [_download_replied_media], call by call. *)
Lemma download_replied_media_run w m s :
  _download_replied_media w m s
  = match picked m with
    | None => (Ok [], s)
    | Some dest =>
        (match download_res w dest with
         | Ok _ => Ok [dest]
         | Raise e => Raise e
         end, (download w dest s).2)
    end.
Proof.
  unfold _download_replied_media, picked.
  destruct (reply_to_message m) as [r|]; [|reflexivity].
  unfold bind; rewrite media_loop_run.
  destruct (first_media r media_attrs) as [dest|].
  - destruct (download_res w dest); [|reflexivity].
    by destruct (photo r).
  - destruct (photo r) as [ph|]; [|reflexivity]; simpl.
    destruct (download_run w
                (PyPath.join TEMP_FILE_DIR (file_unique_id ph ++ ".jpg")%string) s)
      as [-> _].
    by destruct (download_res w _).
Qed.

Lemma has_media_picked m : has_media m = bool_decide (is_Some (picked m)).
Proof.
  unfold has_media, picked, recognized_media.
  destruct (reply_to_message m) as [r|]; [|reflexivity].
  destruct r as [[d|] [a|] [v|] [vo|] [vn|] [p|]]; reflexivity.
Qed.

(** With three media on the replied-to message, only the document is
    downloaded. *)
Example download_picks_one :
  _download_replied_media Sample.fine (Sample.ask (Some Sample.crowded)) Sample.blank
  = (Ok ["temp_gemini_files/AgADdoc.pdf"%string],
     with_files (fun _ => {[ "temp_gemini_files/AgADdoc.pdf"%string ]})
       (log (EvDownload "temp_gemini_files/AgADdoc.pdf") Sample.blank)).
Proof. vm_compute; reflexivity. Qed.

(** C3: for every incoming message, [_download_replied_media] asks for at
    most one download and returns at most one file.  Without a replied-to
    message or a recognised media it changes nothing and returns the empty
    list; otherwise it makes exactly one download and returns the singleton
    list of its destination (the exception of that download, if it raises,
    being the only other outcome). *)
Theorem download_zero_or_one (w : world) (m : message) (s : state) :
  let out := _download_replied_media w m s in
  (List.length (filter (fun e => is_download e = true)
                       (new_events (_download_replied_media w m) s)) <= 1)%nat
  /\ (forall fl, out.1 = Ok fl -> (List.length fl <= 1)%nat)
  /\ if has_media m
     then exists dest,
         new_events (_download_replied_media w m) s = [EvDownload dest]
         /\ out.1 = match download_res w dest with
                    | Ok _ => Ok [dest]
                    | Raise e => Raise e
                    end
     else out = (Ok [], s).
Proof.
  simpl; rewrite has_media_picked.
  unfold new_events; rewrite download_replied_media_run.
  destruct (picked m) as [dest|]; simpl.
  - destruct (download_run w dest s) as [_ ->]; rewrite drop_app_length; simpl.
    repeat split; [lia | | eauto].
    destruct (download_res w dest); intros fl [= <-]; simpl; lia.
  - rewrite drop_all; simpl; repeat split; [lia|].
    intros fl [= <-]; simpl; lia.
Qed.

(** ** C10: the extension of a document without a suffix *)

Lemma ext_map_covers attr (d1 d2 : option string) :
  In attr media_attrs -> dict_get ext_map attr d1 = dict_get ext_map attr d2.
Proof.
  simpl; intros [<-|[<-|[<-|[<-|[<-|[]]]]]]; reflexivity.
Qed.

(** C10: for a replied-to document whose file name is absent or has no
    suffix, the computed extension is [None], the destination is the
    [file_unique_id] followed by the four characters [None], and that is the
    file [_download_replied_media] asks for; for the five handled attributes
    the lookup in [ext_map] never falls back on its default [.bin]. *)
Theorem document_without_suffix (w : world) (s : state) (m : message)
    (r : replied) (d : media) :
  reply_to_message m = Some r ->
  document r = Some d ->
  match file_name d with Some f => suffix f = ""%string | None => True end ->
  media_ext "document" d = None
  /\ media_dest "document" d
     = ("temp_gemini_files/" ++ file_unique_id d ++ "None")%string
  /\ new_events (_download_replied_media w m) s
     = [EvDownload ("temp_gemini_files/" ++ file_unique_id d ++ "None")%string]
  /\ forall attr default, In attr media_attrs ->
       dict_get ext_map attr default = dict_get ext_map attr (Some ".bin"%string)
       /\ (dict_get ext_map attr (Some ".bin"%string) = Some ".bin"%string -> False).
Proof.
  intros Hr Hd Hf.
  assert (media_ext "document" d = None) as Hext.
  { unfold media_ext; destruct (file_name d) as [f|]; simpl; [|reflexivity].
    rewrite Hf; simpl; by destruct (PyStr.truthy f). }
  assert (media_dest "document" d
          = ("temp_gemini_files/" ++ file_unique_id d ++ "None")%string) as Hdest
    by (unfold media_dest; rewrite Hext; reflexivity).
  split; [exact Hext|]; split; [exact Hdest|]; split.
  - assert (picked m = Some (media_dest "document" d)) as Hp.
    { unfold picked; rewrite Hr.
      change (first_media r media_attrs)
        with (match document r with
              | Some mo => Some (media_dest "document" mo)
              | None => first_media r (List.tl media_attrs)
              end).
      by rewrite Hd. }
    unfold new_events; rewrite download_replied_media_run, Hp, Hdest; simpl.
    destruct (download_run w
                ("temp_gemini_files/" ++ file_unique_id d ++ "None")%string s)
      as [_ ->].
    apply drop_app_length.
  - intros attr default Hin; split; [by apply ext_map_covers|].
    simpl in Hin; destruct Hin as [<-|[<-|[<-|[<-|[<-|[]]]]]]; discriminate.
Qed.

Lemma document_without_suffix_sample :
  reply_to_message (Sample.ask (Some Sample.bare_document)) = Some Sample.bare_document
  /\ new_events (_download_replied_media Sample.fine
                   (Sample.ask (Some Sample.bare_document))) Sample.blank
     = [EvDownload "temp_gemini_files/AgADdocNone"].
Proof.
  split; [reflexivity|].
  apply (document_without_suffix Sample.fine Sample.blank
           (Sample.ask (Some Sample.bare_document))
           Sample.bare_document
           {| file_unique_id := "AgADdoc"; file_name := None |});
    [reflexivity | reflexivity | exact I].
Defined.

(** ** Splitting a string on a separator *)

Section Split.

Variable sep : ascii.

Lemma split_no_sep s : PyStr.contains sep s = false -> PyStr.split sep s = [s].
Proof.
  induction s as [|c r IH]; simpl; [reflexivity|].
  destruct (Ascii.eqb c sep); simpl; [discriminate|].
  intros H; by rewrite (IH H).
Qed.

Lemma split_not_nil s : PyStr.split sep s <> [].
Proof.
  induction s as [|c r IH]; simpl; [discriminate|].
  destruct (Ascii.eqb c sep); [discriminate|].
  by destruct (PyStr.split sep r).
Qed.

Lemma split_parts_no_sep s :
  Forall (fun p => PyStr.contains sep p = false) (PyStr.split sep s).
Proof.
  induction s as [|c r IH]; simpl; [by repeat constructor|].
  destruct (Ascii.eqb c sep) eqn:E; [by constructor|].
  destruct (PyStr.split sep r) as [|h t] eqn:Er; [by apply split_not_nil in Er|].
  apply Forall_cons in IH as [Hh Ht]; constructor; [|exact Ht].
  simpl; by rewrite E.
Qed.

Lemma split_head a b :
  PyStr.contains sep a = false ->
  List.hd ""%string (PyStr.split sep (a ++ String sep b)%string) = a.
Proof.
  induction a as [|c r IH]; simpl.
  - intros _; by rewrite Ascii.eqb_refl.
  - destruct (Ascii.eqb c sep); simpl; [discriminate|].
    intros H; specialize (IH H).
    destruct (PyStr.split sep (r ++ String sep b)%string) eqn:E; simpl in *; by subst.
Qed.

Lemma split_two_contains s a b :
  PyStr.split sep s = [a; b] -> PyStr.contains sep s = true.
Proof.
  intros H; destruct (PyStr.contains sep s) eqn:E; [reflexivity|].
  rewrite (split_no_sep _ E) in H; discriminate.
Qed.

End Split.

(** ** C9: the cookie rewritten by [get_client] *)

(** C9: whenever [get_client] writes the cookie to the settings store, the
    value written is the first half of the stored cookie joined by a bar
    with the refreshed second half the client reports, and splitting the
    new value gives the same first half back. *)
Theorem get_client_keeps_psid (w : world) (s : state) (ns key : string) (v : dbval) :
  In (EvDbSet ns key v) (new_events (get_client w) s) ->
  exists c psid psidts n,
    db s !! ("custom.gemini", "cookie")%string = Some (VStr c)
    /\ PyStr.split "|" (PyStr.strip c) = [psid; psidts]
    /\ cookies_get_res w {| secure_1psid := psid; secure_1psidts := psidts |}
       = Ok (Some n)
    /\ n <> psidts
    /\ ns = "custom.gemini"%string /\ key = "cookie"%string
    /\ v = VStr (psid ++ "|" ++ n)%string
    /\ db (get_client w s).2 !! ("custom.gemini", "cookie")%string = Some v
    /\ List.hd ""%string (PyStr.split "|" (psid ++ "|" ++ n)%string) = psid.
Proof.
  unfold new_events, get_client, bind, db_get; simpl.
  destruct (db s !! ("custom.gemini", "cookie")%string) as [[c|l]|] eqn:Hc; simpl.
  2: { destruct l; simpl; rewrite drop_app_length; simpl; intuition discriminate. }
  2: { rewrite drop_app_length; simpl; intuition discriminate. }
  destruct (PyStr.truthy c); simpl;
    [|rewrite drop_app_length; simpl; intuition discriminate].
  destruct (PyStr.split "|" (PyStr.strip c)) as [|psid [|psidts [|x l]]] eqn:Hs;
    try (simpl; rewrite drop_app_length; simpl; intuition discriminate).
  destruct (PyStr.truthy psid); simpl;
    [|rewrite drop_app_length; simpl; intuition discriminate].
  destruct (PyStr.truthy psidts); simpl;
    [|rewrite drop_app_length; simpl; intuition discriminate].
  unfold bind, modify, mkdir, call, try_except, ret; simpl.
  destruct (init_res w _) as [[]|e]; simpl.
  2: { repeat rewrite <- app_assoc; rewrite drop_app_length; simpl;
       intuition discriminate. }
  destruct (cookies_get_res w _) as [[n|]|e] eqn:Hn; simpl.
  2,3: repeat rewrite <- app_assoc; rewrite drop_app_length; simpl;
       intuition discriminate.
  destruct (PyStr.truthy n); simpl.
  2: repeat rewrite <- app_assoc; rewrite drop_app_length; simpl;
     intuition discriminate.
  destruct (String.eqb n psidts) eqn:En; simpl.
  1: repeat rewrite <- app_assoc; rewrite drop_app_length; simpl;
     intuition discriminate.
  repeat rewrite <- app_assoc; rewrite drop_app_length; simpl.
  intros [H|[H|[H|[H|[H|[]]]]]]; try discriminate H.
  injection H as <- <- <-.
  exists c, psid, psidts, n; repeat split; auto.
  - intros ->; by rewrite String.eqb_refl in En.
  - apply lookup_insert_eq.
  - apply split_head.
    pose proof (split_parts_no_sep "|" (PyStr.strip c)) as F.
    rewrite Hs in F; by apply Forall_cons in F as [F _].
Qed.

Lemma get_client_keeps_psid_sample :
  let w := Sample.world_of Sample.text_only (Some "TS2"%string) [] false false in
  In (EvDbSet "custom.gemini" "cookie" (VStr "PSID|TS2"))
     (new_events (get_client w) Sample.configured)
  /\ db (get_client w Sample.configured).2 !! ("custom.gemini", "cookie")%string
     = Some (VStr "PSID|TS2").
Proof.
  intros w.
  assert (In (EvDbSet "custom.gemini" "cookie" (VStr "PSID|TS2"))
             (new_events (get_client w) Sample.configured)) as H.
  { vm_compute; do 4 right; left; reflexivity. }
  split; [exact H|].
  destruct (get_client_keeps_psid w Sample.configured _ _ _ H)
    as (c & psid & psidts & n & _ & _ & _ & _ & _ & _ & _ & E & _).
  exact E.
Defined.

(** ** C8: the two validations of the cookie *)

(** [get_client] refuses a stored cookie one half of which is empty. *)
Lemma get_client_empty_part w s c psid psidts :
  db s !! ("custom.gemini", "cookie")%string = Some (VStr c) ->
  PyStr.truthy c = true ->
  PyStr.split "|" (PyStr.strip c) = [psid; psidts] ->
  PyStr.truthy psid && PyStr.truthy psidts = false ->
  (get_client w s).1
  = Raise (ValueError "Invalid cookie values. Both parts must be non-empty.").
Proof.
  intros Hc Ht Hs He; unfold get_client, bind, db_get; simpl.
  rewrite Hc; simpl; rewrite Ht; simpl; rewrite Hs.
  destruct (PyStr.truthy psid), (PyStr.truthy psidts); try discriminate He;
    reflexivity.
Qed.

Lemma set_gemini_stores w s arg rest :
  PyStr.split_maxsplit1 ("/set_gemini " ++ arg)%string = ["/set_gemini"%string; rest] ->
  PyStr.strip rest = arg ->
  set_gemini_rejects arg = false ->
  new_events (set_gemini w (Sample.set_cookie arg)) s
  = [EvDbSet "custom.gemini" "cookie" (VStr arg); EvEdit Incoming set_success None]
  /\ db (set_gemini w (Sample.set_cookie arg) s).2 !! ("custom.gemini", "cookie")%string
     = Some (VStr arg).
Proof.
  intros Hsplit Hstrip Hok.
  unfold new_events, set_gemini.
  cbn [Sample.set_cookie command text List.length Nat.ltb Nat.leb].
  rewrite Hsplit, Hstrip, Hok.
  unfold bind, db_set, respond, edit, call, ret, is_self; simpl.
  destruct (edit_res w Incoming set_success) as [[]|e]; simpl;
    rewrite <- app_assoc, drop_app_length; simpl;
    (split; [reflexivity | apply lookup_insert_eq]).
Qed.

Lemma stored_but_unusable_holds w s arg rest psid psidts :
  PyStr.split_maxsplit1 ("/set_gemini " ++ arg)%string = ["/set_gemini"%string; rest] ->
  PyStr.strip rest = arg ->
  PyStr.strip arg = arg ->
  PyStr.truthy arg = true ->
  PyStr.split "|" arg = [psid; psidts] ->
  PyStr.truthy psid && PyStr.truthy psidts = false ->
  stored_but_unusable w s arg.
Proof.
  intros Hsplit Hstrip Hidem Ht Hparts He.
  assert (set_gemini_rejects arg = false) as Hok.
  { unfold set_gemini_rejects.
    by rewrite (split_two_contains _ _ _ _ Hparts), Hparts. }
  destruct (set_gemini_stores w s arg rest Hsplit Hstrip Hok) as [Hev Hdb].
  split; [exact Hev|]; split; [exact Hdb|].
  apply (get_client_empty_part w _ arg psid psidts); auto.
  by rewrite Hidem.
Qed.

(** [get_client] constructs the client only from a stored string whose
    stripped form splits into two non-empty parts. *)
Lemma get_client_validates w s psid psidts :
  In (EvNewClient psid psidts) (new_events (get_client w) s) ->
  exists c,
    db s !! ("custom.gemini", "cookie")%string = Some (VStr c)
    /\ PyStr.split "|" (PyStr.strip c) = [psid; psidts]
    /\ PyStr.truthy psid = true /\ PyStr.truthy psidts = true.
Proof.
  unfold new_events, get_client, bind, db_get; simpl.
  destruct (db s !! ("custom.gemini", "cookie")%string) as [[c|l]|] eqn:Hc; simpl.
  2: { destruct l; simpl; rewrite drop_app_length; simpl; intuition discriminate. }
  2: { rewrite drop_app_length; simpl; intuition discriminate. }
  destruct (PyStr.truthy c); simpl;
    [|rewrite drop_app_length; simpl; intuition discriminate].
  destruct (PyStr.split "|" (PyStr.strip c)) as [|p1 [|p2 [|x l]]] eqn:Hs;
    try (simpl; rewrite drop_app_length; simpl; intuition discriminate).
  destruct (PyStr.truthy p1) eqn:H1; simpl;
    [|rewrite drop_app_length; simpl; intuition discriminate].
  destruct (PyStr.truthy p2) eqn:H2; simpl;
    [|rewrite drop_app_length; simpl; intuition discriminate].
  intros Hin; exists c.
  assert (p1 = psid /\ p2 = psidts) as [<- <-]; [|by repeat split].
  revert Hin; unfold bind, modify, mkdir, call, try_except, ret; simpl.
  destruct (init_res w _) as [[]|e]; simpl.
  2: { repeat rewrite <- app_assoc; rewrite drop_app_length; simpl.
       intros [H|[H|[H|[]]]]; try discriminate H; by injection H. }
  destruct (cookies_get_res w _) as [[n|]|e]; simpl.
  2,3: repeat rewrite <- app_assoc; rewrite drop_app_length; simpl;
       intros [H|[H|[H|[H|[]]]]]; try discriminate H; by injection H.
  destruct (PyStr.truthy n && negb (String.eqb n p2)); simpl;
    repeat rewrite <- app_assoc; rewrite drop_app_length; simpl.
  - intros [H|[H|[H|[H|[H|[]]]]]]; try discriminate H; by injection H.
  - intros [H|[H|[H|[H|[]]]]]; try discriminate H; by injection H.
Qed.

(** C8: the test of [set_gemini] is strictly weaker than the tests of
    [get_client].  [set_gemini] accepts exactly the strings that split into
    two parts around the bar; whatever cookie [get_client] builds a client
    from would pass that test; yet [set_gemini] stores the arguments [|] and
    [a|] with its success message, and [get_client] then raises the
    [ValueError] of an empty part. *)
Theorem set_gemini_weaker_than_get_client (w : world) (s : state) :
  (forall c, set_gemini_rejects c = false
             <-> List.length (PyStr.split "|" c) = 2%nat)
  /\ (forall psid psidts,
         In (EvNewClient psid psidts) (new_events (get_client w) s) ->
         exists c, db s !! ("custom.gemini", "cookie")%string = Some (VStr c)
                   /\ set_gemini_rejects (PyStr.strip c) = false)
  /\ stored_but_unusable w s "|"
  /\ stored_but_unusable w s "a|".
Proof.
  split; [|split; [|split]].
  - intros c; unfold set_gemini_rejects; split.
    + intros H; apply orb_false_elim in H as [_ H].
      apply negb_false_iff in H; by apply Nat.eqb_eq in H.
    + intros H.
      destruct (PyStr.split "|" c) as [|a [|b [|x l]]] eqn:E; try discriminate H.
      by rewrite (split_two_contains _ _ _ _ E).
  - intros psid psidts Hin.
    destruct (get_client_validates w s psid psidts Hin) as (c & Hc & Hs & _).
    exists c; split; [exact Hc|]; unfold set_gemini_rejects.
    by rewrite (split_two_contains _ _ _ _ Hs), Hs.
  - by apply (stored_but_unusable_holds w s "|" "|" "" "").
  - by apply (stored_but_unusable_holds w s "a|" "a|" "a" "").
Qed.

(** ** The [finally] clause *)

Section Cleanup.

Variable w : world.

Lemma safe_remove_ok p s : (_safe_remove w p s).1 = Ok tt.
Proof.
  unfold _safe_remove, try_except, bind, path_exists, gets, unlink, call, ret.
  destruct (bool_decide _); [|reflexivity].
  by destruct (unlink_res w p) as [[]|e].
Qed.

Lemma for_each_safe_remove_ok l s : (for_each l (_safe_remove w) s).1 = Ok tt.
Proof.
  revert s; induction l as [|p l IH]; intros s; simpl; [reflexivity|].
  unfold bind; pose proof (safe_remove_ok p s) as H.
  destruct (_safe_remove w p s) as [[[]|e] s1]; simpl in H; [apply IH | discriminate].
Qed.

Lemma cleanup_ok s : (cleanup w s).1 = Ok tt.
Proof.
  unfold cleanup, bind, gets.
  pose proof (for_each_safe_remove_ok (downloaded_files s) s) as H.
  destruct (for_each _ _ s) as [[[]|e] s1]; simpl in H; [|discriminate].
  apply for_each_safe_remove_ok.
Qed.

Lemma cleanup_unlinks : keeps (appends is_unlink) (cleanup w).
Proof. keeps_fun. Qed.

End Cleanup.

(** ** C2: the two [except] clauses *)

(** C2, as stated, fails: without stored cookies [get_client] raises a
    [ValueError], and the user is shown the text of that exception, not the
    generic failure message. *)
Lemma gemini_query_shows_value_error :
  new_events (gemini_query Sample.fine (Sample.ask None)) Sample.blank
  = [ EvReply thinking;
      EvDbGet "custom.gemini" "cookie";
      EvEdit WaitMsg "❌ No Gemini cookies configured. Use set_gemini command." None ]
  /\ ~ In (EvEdit WaitMsg generic_error None)
          (new_events (gemini_query Sample.fine (Sample.ask None)) Sample.blank).
Proof.
  assert (new_events (gemini_query Sample.fine (Sample.ask None)) Sample.blank
          = [ EvReply thinking;
              EvDbGet "custom.gemini" "cookie";
              EvEdit WaitMsg "❌ No Gemini cookies configured. Use set_gemini command."
                     None ]) as E by (vm_compute; reflexivity).
  split; [exact E|].
  rewrite E; simpl; intros [H|[H|[H|[]]]]; discriminate H.
Qed.

(** C2, amended: every exception raised in the [try] suite of the gemini
    query is caught by one of two handlers.  A [ValueError] is shown to the
    user as its own message behind the cross mark, any other exception as
    the one generic failure message; after that single edit only the temp
    files are removed, and the handler raises only if that edit does. *)
Theorem gemini_run_reports_error (w : world) (m : message) (prompt : string)
    (s s0 s1 : state) (wm : msgref) (e : exn) :
  respond w m thinking s = (Ok wm, s0) ->
  gemini_body w m prompt wm (with_generated [] (with_downloaded [] s0)) = (Raise e, s1) ->
  let shown :=
    match e with
    | ValueError msg => ("❌ " ++ msg)%string
    | OtherException _ => generic_error
    end in
  exists t,
    trace (gemini_run w m prompt s).2 = trace s1 ++ EvEdit WaitMsg shown None :: t
    /\ Forall (fun ev => is_unlink ev = true) t
    /\ (gemini_run w m prompt s).1
       = match edit_res w WaitMsg shown with Ok _ => Ok tt | Raise x => Raise x end.
Proof.
  intros Hr Hb shown.
  pose proof (respond_returns _ _ _ _ _ _ Hr) as ->.
  unfold gemini_run, bind; rewrite Hr; simpl.
  unfold try_finally, try_except; rewrite Hb.
  change (error_text e) with shown in *.
  assert (exists r, on_error w WaitMsg e s1 = (r, log (EvEdit WaitMsg shown None) s1)
                    /\ r = match edit_res w WaitMsg shown with
                           | Ok _ => Ok tt | Raise x => Raise x end) as (r & -> & Hres).
  { unfold on_error, edit, bind, call, ret.
    change (error_text e) with shown.
    destruct (edit_res w WaitMsg shown) as [[]|x]; eexists; split; reflexivity. }
  pose proof (cleanup_ok w (log (EvEdit WaitMsg shown None) s1)) as Hok.
  destruct (cleanup_unlinks w (log (EvEdit WaitMsg shown None) s1)) as (t & Ht & Ft).
  destruct (cleanup w _) as [[[]|x] s2]; simpl in Hok, Ht |- *; [|discriminate].
  exists t; repeat split; auto.
  by rewrite Ht, <- app_assoc.
Qed.

Lemma gemini_run_reports_error_sample :
  exists t,
    trace (gemini_run Sample.fine (Sample.ask None) "hello" Sample.blank).2
    = [ EvReply thinking; EvDbGet "custom.gemini" "cookie" ]
      ++ EvEdit WaitMsg "❌ No Gemini cookies configured. Use set_gemini command." None
         :: t.
Proof.
  destruct (gemini_run_reports_error Sample.fine (Sample.ask None) "hello"
              Sample.blank
              (respond Sample.fine (Sample.ask None) thinking Sample.blank).2
              (gemini_body Sample.fine (Sample.ask None) "hello" WaitMsg
                 (with_generated [] (with_downloaded []
                    (respond Sample.fine (Sample.ask None) thinking Sample.blank).2))).2
              WaitMsg
              (ValueError "No Gemini cookies configured. Use set_gemini command.")
              eq_refl eq_refl) as (t & Ht & _).
  exists t; exact Ht.
Defined.

(** ** C4: what the [finally] clause removes *)

Section Removal.

Variable w : world.

(** One [_safe_remove]: no file appears, the two lists are kept, and the
    file is gone unless its [unlink] raised. *)
Lemma safe_remove_effect p s :
  let s' := (_safe_remove w p s).2 in
  files s' ⊆ files s
  /\ downloaded_files s' = downloaded_files s
  /\ generated_image_paths s' = generated_image_paths s
  /\ ((forall e, unlink_res w p <> Raise e) -> p ∉ files s').
Proof.
  unfold _safe_remove, try_except, bind, path_exists, gets, unlink, call, ret.
  destruct (bool_decide (p ∈ files s)) eqn:E; simpl.
  - destruct (unlink_res w p) as [[]|e]; simpl; repeat split; auto.
    + intros x Hx; apply elem_of_difference in Hx; tauto.
    + intros _ Hp; apply elem_of_difference in Hp as [_ Hp].
      apply Hp; by apply elem_of_singleton.
    + intros H; by destruct (H e).
  - repeat split; auto; intros _; by apply bool_decide_eq_false in E.
Qed.

Lemma for_each_safe_remove_effect l s :
  let s' := (for_each l (_safe_remove w) s).2 in
  files s' ⊆ files s
  /\ downloaded_files s' = downloaded_files s
  /\ generated_image_paths s' = generated_image_paths s
  /\ (forall p, In p l -> (forall e, unlink_res w p <> Raise e) -> p ∉ files s').
Proof.
  revert s; induction l as [|q l IH]; intros s; simpl.
  - repeat split; auto; intros p [].
  - unfold bind.
    destruct (safe_remove_effect q s) as (Hf & Hd & Hg & Hq).
    pose proof (safe_remove_ok w q s) as Hok.
    destruct (_safe_remove w q s) as [[[]|e] s1]; simpl in *; [|discriminate].
    destruct (IH s1) as (Hf' & Hd' & Hg' & Hl).
    repeat split; try congruence.
    + intros x Hx; auto.
    + intros p [<-|Hp] Hu; [|by apply Hl].
      intros Hin; apply Hf' in Hin; by apply Hq.
Qed.

(** The [finally] clause does remove every path of its two lists, one
    failing [unlink] not preventing the others. *)
Lemma cleanup_removes s p :
  In p (downloaded_files s ++ generated_image_paths s) ->
  (forall e, unlink_res w p <> Raise e) ->
  p ∉ files (cleanup w s).2.
Proof.
  intros Hin Hu; unfold cleanup, bind, gets.
  destruct (for_each_safe_remove_effect (downloaded_files s) s) as (Hf & Hd & Hg & Hl).
  pose proof (for_each_safe_remove_ok w (downloaded_files s) s) as Hok.
  destruct (for_each _ _ s) as [[[]|e] s1]; simpl in *; [|discriminate].
  destruct (for_each_safe_remove_effect (generated_image_paths s1) s1)
    as (Hf' & _ & _ & Hl').
  apply in_app_or in Hin as [Hin|Hin].
  - intros Hp; apply Hf' in Hp; by apply (Hl p).
  - apply Hl'; [by rewrite Hg | done].
Qed.

End Removal.

(** C4 fails on the code: the image of the response is saved, the chat
    client refuses the photo, the handler answers with the warning and
    returns normally, and the saved file is still there: its path never
    reached [generated_image_paths], so the [finally] clause did not ask
    for its removal. *)
Theorem gemini_query_leaks_generated_image :
  let out := gemini_query photo_refused (Sample.ask None) Sample.configured in
  out.1 = Ok tt
  /\ files Sample.configured = ∅
  /\ files out.2 = {[ "temp_gemini_images/gemini_gen_0.png"%string ]}
  /\ generated_image_paths out.2 = []
  /\ new_events (gemini_query photo_refused (Sample.ask None)) Sample.configured
     = [ EvReply thinking;
         EvDbGet "custom.gemini" "cookie";
         EvNewClient "PSID" "TS";
         EvClientInit {| secure_1psid := "PSID"; secure_1psidts := "TS" |};
         EvCookiesGet {| secure_1psid := "PSID"; secure_1psidts := "TS" |};
         EvDbGet "custom.gemini" "chat_metadata";
         EvStartChat {| secure_1psid := "PSID"; secure_1psidts := "TS" |} None
           DEFAULT_MODEL;
         EvSendMessage
           {| chat_client := {| secure_1psid := "PSID"; secure_1psidts := "TS" |};
              chat_start_metadata := None; chat_model := DEFAULT_MODEL |}
           "hello" None;
         EvDbSet "custom.gemini" "chat_metadata" (VList ["cid"; "rid"; "rcid"]);
         EvEdit WaitMsg
           ("**Question:**" ++ nl ++ "hello" ++ nl ++ nl ++ "**Answer:**" ++ nl ++ "here")
           (Some MARKDOWN);
         EvSave (GeneratedImage "http://g/1") "temp_gemini_images" "gemini_gen_0.png";
         EvSendPhoto 42 "temp_gemini_images/gemini_gen_0.png" 7;
         EvAppSendMessage 42 image_warning 7 ]%string.
Proof. repeat split; vm_compute; reflexivity. Qed.

(** ** C5: stored metadata that no longer opens a chat *)

(** [ask_and_relay], call by call: the request, then the relay. *)
Lemma ask_and_relay_run w m prompt wm ch s :
  let fa := match downloaded_files s with
            | [] => None
            | _ => Some (downloaded_files s)
            end in
  ask_and_relay w m prompt wm ch s
  = match send_message_res w ch prompt fa with
    | Ok snt => relay_response w m prompt wm snt (log (EvSendMessage ch prompt fa) s)
    | Raise e => (Raise e, log (EvSendMessage ch prompt fa) s)
    end.
Proof.
  unfold ask_and_relay, bind, gets, send_message, call; simpl.
  by destruct (send_message_res w ch prompt _).
Qed.

Lemma ask_and_relay_sends w m prompt wm ch s :
  exists fa t,
    new_events (ask_and_relay w m prompt wm ch) s = EvSendMessage ch prompt fa :: t
    /\ Forall (fun ev => not_start_chat ev = true) t.
Proof.
  eexists; unfold new_events; rewrite ask_and_relay_run.
  destruct (send_message_res w ch prompt _) as [snt|e].
  - assert (keeps (appends not_start_chat) (relay_response w m prompt wm snt))
      as K by keeps_fun.
    match goal with
    | |- context [relay_response w m prompt wm snt ?s1] =>
        destruct (K s1) as (t & Ht & Ft)
    end.
    exists t; split; [|exact Ft].
    rewrite Ht; simpl; by rewrite <- app_assoc, drop_app_length.
  - exists []; split; [|constructor].
    simpl; by rewrite drop_app_length.
Qed.

(** C5: if starting a chat from the stored metadata raises, the handler
    starts a fresh chat with the default model, deletes the stored
    [chat_metadata] entry, and goes on to send the request on the fresh
    chat; the stored metadata is tried once and no chat is started after the
    fresh one. *)
Theorem stale_metadata_recovery (w : world) (m : message) (prompt : string)
    (wm : msgref) (cl : client) (s : state) (md : dbval) (e : exn) :
  db s !! ("custom.gemini", "chat_metadata")%string = Some md ->
  truthy_val (Some md) = true ->
  start_chat_res w cl (Some md) DEFAULT_MODEL = Raise e ->
  start_chat_res w cl None DEFAULT_MODEL = Ok tt ->
  exists s',
    open_chat w cl s = (Ok (fresh_chat cl), s')
    /\ trace s' = trace s ++ recovery_events cl md
    /\ db s' = delete ("custom.gemini", "chat_metadata")%string (db s)
    /\ bind (open_chat w cl) (ask_and_relay w m prompt wm) s
       = ask_and_relay w m prompt wm (fresh_chat cl) s'
    /\ exists fa t,
         new_events (ask_and_relay w m prompt wm (fresh_chat cl)) s'
         = EvSendMessage (fresh_chat cl) prompt fa :: t
         /\ Forall (fun ev => not_start_chat ev = true) t.
Proof.
  intros Hdb Htruthy Hstale Hfresh.
  assert (exists s', open_chat w cl s = (Ok (fresh_chat cl), s')
                     /\ trace s' = trace s ++ recovery_events cl md
                     /\ db s' = delete ("custom.gemini", "chat_metadata")%string (db s))
    as (s' & Hopen & Htrace & Hdb').
  { unfold open_chat, bind at 1, db_get; rewrite Hdb, Htruthy.
    unfold try_except, start_chat, bind, call, ret; simpl.
    rewrite Hstale, Hfresh; simpl.
    eexists; split; [reflexivity|]; split; [|reflexivity].
    simpl; by rewrite <- !app_assoc. }
  exists s'; repeat split; auto.
  - unfold bind at 1; by rewrite Hopen.
  - apply ask_and_relay_sends.
Qed.

Lemma stale_metadata_recovery_sample :
  let w := Sample.world_of Sample.text_only None [] false true in
  let cl := {| secure_1psid := "PSID"; secure_1psidts := "TS" |}%string in
  exists s',
    open_chat w cl Sample.with_history = (Ok (fresh_chat cl), s')
    /\ db s' !! ("custom.gemini", "chat_metadata")%string = None.
Proof.
  intros w cl.
  destruct (stale_metadata_recovery w (Sample.ask None) "hello" WaitMsg cl
              Sample.with_history (VList ["c1"; "r1"; "rc1"]%string)
              (ValueError "metadata cannot exceed 3 elements")
              eq_refl eq_refl eq_refl eq_refl)
    as (s' & Hopen & _ & Hdb & _).
  exists s'; split; [exact Hopen|].
  rewrite Hdb; apply lookup_delete_eq.
Defined.

(** ** C7: relaying the images of a response *)

(** [str] gives different integers different strings. *)
Lemma str_of_nat_inj i j : str_of_nat i = str_of_nat j -> i = j.
Proof.
  unfold str_of_nat; intros E.
  assert (forall n, Nat.to_uint n <> Decimal.Nil) as Hnil.
  { intros n; rewrite <- (DecimalNat.Unsigned.of_to n) at 1.
    rewrite DecimalNat.Unsigned.to_of; apply DecimalFacts.unorm_nonnil. }
  apply DecimalNat.Unsigned.to_uint_inj.
  pose proof (NilZero.usu _ (Hnil i)) as Hi.
  pose proof (NilZero.usu _ (Hnil j)) as Hj.
  rewrite E in Hi; congruence.
Qed.

Lemma length_append (a b : string) :
  String.length (a ++ b) = (String.length a + String.length b)%nat.
Proof. induction a as [|c a IH]; simpl; [reflexivity | by rewrite IH]. Qed.

Lemma append_inj_r (a b t : string) : (a ++ t = b ++ t)%string -> a = b.
Proof.
  intros E.
  assert (String.length a = String.length b) as L.
  { apply (f_equal String.length) in E.
    rewrite !length_append in E; lia. }
  revert b E L; induction a as [|c a IH]; intros [|d b] E L; simpl in *;
    try discriminate; [reflexivity|].
  injection E as -> E; f_equal; apply IH; [exact E | lia].
Qed.

(** The temp files of two images of one response are different. *)
Lemma generated_path_inj i j : generated_path i = generated_path j -> i = j.
Proof.
  unfold generated_path, PyPath.join, TEMP_IMAGE_DIR; intros E.
  apply str_of_nat_inj, (append_inj_r _ _ ".png").
  simpl in E; by repeat injection E as E.
Qed.

Section Relay.

Variable w : world.
Variable m : message.

Lemma trace_grows {A} (mm : M A) s :
  keeps (appends (fun _ => true)) mm ->
  trace (mm s).2 = trace s ++ new_events mm s.
Proof.
  intros K; destruct (K s) as (t & E & _).
  by rewrite (new_events_app _ _ _ E).
Qed.

Lemma save_generated_image_run img i s :
  exists r s1,
    _save_generated_image w img i s = (Ok r, s1)
    /\ trace s1
       = trace s
         ++ [EvSave img TEMP_IMAGE_DIR ("gemini_gen_" ++ str_of_nat i ++ ".png")%string]
    /\ generated_image_paths s1 = generated_image_paths s
    /\ (r = None \/ r = Some (generated_path i) /\ generated_path i ∈ files s1).
Proof.
  unfold _save_generated_image, try_except, image_save, bind, call, path_exists,
    gets, ret.
  fold (generated_path i).
  destruct (save_res w img _) as [[]|e]; simpl.
  - rewrite bool_decide_eq_true_2
      by (apply elem_of_union; left; by apply elem_of_singleton).
    do 2 eexists; split; [reflexivity|]; repeat split; auto.
    right; split; [reflexivity|].
    simpl; apply elem_of_union; left; by apply elem_of_singleton.
  - destruct (bool_decide (generated_path i ∈ files s)) eqn:E;
      do 2 eexists; (split; [reflexivity|]); repeat split; auto.
    right; split; [reflexivity|]. by apply bool_decide_eq_true in E.
  - do 2 eexists; split; [reflexivity|]; repeat split; auto.
Qed.

Lemma try_except_bind_ok {A B} (mm : M A) (k : A -> M B) h s r s1 :
  mm s = (Ok r, s1) -> try_except (bind mm k) h s = try_except (k r) h s1.
Proof. intros E; unfold try_except, bind; by rewrite E. Qed.

Lemma new_events_split {A} (mm : M A) s s1 t1 :
  trace s1 = trace s ++ t1 ->
  keeps (appends (fun _ => true)) mm ->
  drop (List.length (trace s)) (trace (mm s1).2) = t1 ++ new_events mm s1.
Proof.
  intros E K.
  rewrite (trace_grows mm s1 K), E, <- app_assoc; apply drop_app_length.
Qed.

(** A photo under the [except] of the image loop. *)
Lemma photo_run ph s :
  new_events
    (try_except (send_photo w (chat_id m) ph (msg_id m))
       (fun _ => app_send_message w (chat_id m) image_warning (msg_id m))) s
  = photo_sent w m ph.
Proof.
  unfold new_events, try_except, send_photo, app_send_message, call, photo_sent.
  destruct (send_photo_res w (chat_id m) ph (msg_id m)) as [[]|e]; simpl.
  - apply drop_app_length.
  - destruct (app_send_message_res w (chat_id m) image_warning (msg_id m))
      as [[]|e']; simpl; by rewrite <- app_assoc, drop_app_length.
Qed.

(** An image sent by its url, under the same [except]. *)
Lemma url_run img s :
  new_events
    (try_except (send_by_url w m img)
       (fun _ => app_send_message w (chat_id m) image_warning (msg_id m))) s
  = url_sent w m (image_url img)
  /\ files (try_except (send_by_url w m img)
              (fun _ => app_send_message w (chat_id m) image_warning (msg_id m)) s).2
     = files s.
Proof.
  unfold send_by_url, url_sent.
  destruct (image_url img) as [|c u]; simpl.
  - unfold new_events, try_except, ret; simpl; by rewrite drop_all.
  - split; [apply photo_run|].
    unfold try_except, send_photo, app_send_message, call.
    destruct (send_photo_res w _ _ _) as [[]|e]; simpl; [reflexivity|].
    by destruct (app_send_message_res w _ _ _) as [[]|e'].
Qed.

(** [_save_generated_image], call by call. *)
Lemma save_generated_image_exact img i s :
  exists s1,
    _save_generated_image w img i s
    = (Ok (if saved_to_file w (files s) i img then Some (generated_path i) else None),
       s1)
    /\ trace s1
       = trace s ++ [EvSave img TEMP_IMAGE_DIR ("gemini_gen_" ++ str_of_nat i ++ ".png")]
    /\ (saved_to_file w (files s) i img = true -> generated_path i ∈ files s1)
    /\ (forall p, p <> generated_path i -> (p ∈ files s1 <-> p ∈ files s)).
Proof.
  unfold _save_generated_image, try_except, image_save, bind, call, path_exists,
    gets, ret, saved_to_file.
  fold (generated_path i).
  destruct (save_res w img _) as [[|]|e]; simpl.
  - rewrite bool_decide_eq_true_2
      by (apply elem_of_union; left; by apply elem_of_singleton).
    eexists; split; [reflexivity|]; simpl; split; [reflexivity|]; split.
    + intros _; apply elem_of_union; left; by apply elem_of_singleton.
    + intros p Hp; rewrite elem_of_union, elem_of_singleton; tauto.
  - repeat case_bool_decide;
      try (exfalso; match goal with H : ~ _ |- _ => apply H end; assumption);
      (eexists; split; [reflexivity|]; simpl; split; [reflexivity|]; split;
       [|tauto]); [intros _; assumption | discriminate].
  - eexists; split; [reflexivity|]; simpl; split; [reflexivity|]; split;
      [discriminate | tauto].
Qed.

(** One turn of the loop: its calls, and the files it leaves. *)
Lemma relay_step_run i img s fs :
  (generated_path i ∈ files s <-> generated_path i ∈ fs) ->
  new_events (relay_step w m i img) s = image_relayed w m fs i img
  /\ (forall p, p <> generated_path i ->
                (p ∈ files (relay_step w m i img s).2 <-> p ∈ files s)).
Proof.
  intros Hfs; destruct img as [u|u|u].
  - (* a generated image *)
    assert (saved_to_file w fs i (GeneratedImage u)
            = saved_to_file w (files s) i (GeneratedImage u)) as Efs.
    { unfold saved_to_file; destruct (save_res w _ _) as [b|e]; [|reflexivity].
      f_equal; apply bool_decide_ext; tauto. }
    destruct (save_generated_image_exact (GeneratedImage u) i s)
      as (s1 & Hsave & Ht & Hin & Hfiles).
    unfold relay_step, relay_image, image_relayed, new_events.
    rewrite (try_except_bind_ok _ _ _ _ _ _ Hsave), Efs.
    destruct (saved_to_file w (files s) i (GeneratedImage u)).
    + assert (path_exists (generated_path i) s1 = (Ok true, s1)) as Hex.
      { unfold path_exists, gets; rewrite bool_decide_eq_true_2; [reflexivity|].
        by apply Hin. }
      rewrite (try_except_bind_ok _ _ _ _ _ _ Hex).
      unfold try_except, bind, send_photo, call, modify,
        app_send_message, photo_sent.
      destruct (send_photo_res w (chat_id m) (generated_path i) (msg_id m))
        as [[]|e]; simpl.
      * rewrite Ht, <- app_assoc, drop_app_length; split; [reflexivity | exact Hfiles].
      * unfold call;
          destruct (app_send_message_res w (chat_id m) image_warning (msg_id m))
            as [[]|e'];
          simpl; rewrite Ht, <- !app_assoc, drop_app_length;
          (split; [reflexivity | exact Hfiles]).
    + destruct (url_run (GeneratedImage u) s1) as [E F]; simpl in E.
      split; [|intros p Hp; rewrite F; by apply Hfiles].
      unfold new_events in E.
      assert (keeps (appends (fun _ => true))
                (try_except (send_by_url w m (GeneratedImage u))
                   (fun _ => app_send_message w (chat_id m) image_warning (msg_id m))))
        as K by keeps_fun.
      destruct (K s1) as (t & Et & _).
      rewrite Et, drop_app_length in E; subst t.
      by rewrite Et, Ht, <- app_assoc, drop_app_length.
  - (* an image of the web *)
    destruct (url_run (WebImage u) s) as [E F].
    split; [exact E | intros p _; unfold relay_step, relay_image; by rewrite F].
  - (* neither *)
    unfold relay_step, relay_image, new_events, try_except, ret; simpl.
    rewrite drop_all; split; [reflexivity | tauto].
Qed.

Lemma relay_step_ok i img s :
  app_send_message_res w (chat_id m) image_warning (msg_id m) = Ok tt ->
  (relay_step w m i img s).1 = Ok tt.
Proof.
  intros Hwarn; unfold relay_step, try_except.
  destruct (relay_image w m i img s) as [[[]|e] s1]; [reflexivity|].
  unfold app_send_message, call; by rewrite Hwarn.
Qed.

(** The loop over the images, [fs] agreeing with the files on the temp
    files still to come. *)
Lemma relay_images_run i imgs s fs :
  app_send_message_res w (chat_id m) image_warning (msg_id m) = Ok tt ->
  (forall j, (i <= j)%nat -> (generated_path j ∈ files s <-> generated_path j ∈ fs)) ->
  (relay_images w m i imgs s).1 = Ok tt
  /\ new_events (relay_images w m i imgs) s = images_relayed w m fs i imgs.
Proof.
  intros Hwarn; revert i s; induction imgs as [|img rest IH]; intros i s Hfs; simpl.
  - unfold new_events; simpl; by rewrite drop_all.
  - pose proof (relay_step_ok i img s Hwarn) as Hok.
    destruct (relay_step_run i img s fs (Hfs i (le_n i))) as [E1 F1].
    assert (keeps (appends (fun _ => true)) (relay_step w m i img)) as K1
      by keeps_fun.
    assert (keeps (appends (fun _ => true)) (relay_images w m (S i) rest)) as K2
      by keeps_fun.
    pose proof (trace_grows _ s K1) as T1; rewrite E1 in T1.
    unfold new_events at 1, bind.
    destruct (relay_step w m i img s) as [[[]|e] s1]; simpl in Hok, T1, F1;
      [|discriminate].
    destruct (IH (S i) s1) as (Hres & Hrest).
    { intros j Hj; rewrite <- (Hfs j) by lia; apply F1.
      intros E; apply generated_path_inj in E; lia. }
    rewrite (new_events_split _ s s1 _ T1 K2), Hrest.
    split; [exact Hres | reflexivity].
Qed.

(** C7, amended: for every image of a response, in the order of the
    response, a generated image is saved to its temp file and sent as a
    photo from that file, or, when the save raised or the file is not there,
    by its url when the url is not empty; an image of the web is sent by its
    url when the url is not empty; each photo the chat client refuses is
    followed by one warning; these are all the calls of the loop, and as long
    as the warning itself can be sent the loop goes through all the images
    and returns normally. *)
Theorem relay_images_attempts_all (i : nat) (imgs : list image) (s : state) :
  app_send_message_res w (chat_id m) image_warning (msg_id m) = Ok tt ->
  (relay_images w m i imgs s).1 = Ok tt
  /\ new_events (relay_images w m i imgs) s = images_relayed w m (files s) i imgs.
Proof. intros Hwarn; by apply relay_images_run. Qed.

End Relay.

(** C7, as stated, fails twice.  When the chat client refuses the first
    photo and then the warning as well, the loop is left, the second image
    is never sent, and the handler ends on the generic failure message.  And
    an image whose url is empty is passed over without any call. *)
Lemma gemini_query_abandons_images :
  new_events (gemini_query (first_refused true) (Sample.ask None)) Sample.configured
  = [ EvReply thinking;
      EvDbGet "custom.gemini" "cookie";
      EvNewClient "PSID" "TS";
      EvClientInit {| secure_1psid := "PSID"; secure_1psidts := "TS" |};
      EvCookiesGet {| secure_1psid := "PSID"; secure_1psidts := "TS" |};
      EvDbGet "custom.gemini" "chat_metadata";
      EvStartChat {| secure_1psid := "PSID"; secure_1psidts := "TS" |} None
        DEFAULT_MODEL;
      EvSendMessage
        {| chat_client := {| secure_1psid := "PSID"; secure_1psidts := "TS" |};
           chat_start_metadata := None; chat_model := DEFAULT_MODEL |}
        "hello" None;
      EvDbSet "custom.gemini" "chat_metadata" (VList ["cid"; "rid"; "rcid"]);
      EvEdit WaitMsg
        ("**Question:**" ++ nl ++ "hello" ++ nl ++ nl ++ "**Answer:**" ++ nl ++ "here")
        (Some MARKDOWN);
      EvSendPhoto 42 "http://w/1" 7;
      EvAppSendMessage 42 image_warning 7;
      EvEdit WaitMsg generic_error None ]%string
  /\ ~ In (EvSendPhoto 42 "http://w/2" 7)
          (new_events (gemini_query (first_refused true) (Sample.ask None))
                      Sample.configured)
  /\ relay_images Sample.fine (Sample.ask None) 0 [WebImage ""] Sample.configured
     = (Ok tt, Sample.configured).
Proof.
  match goal with
  | |- ?t = ?l /\ _ => assert (t = l) as E by (vm_compute; reflexivity)
  end.
  split; [exact E|]; split; [|reflexivity].
  rewrite E; simpl; intros H.
  repeat (destruct H as [H|H]; [discriminate H|]); exact H.
Qed.

Lemma relay_images_attempts_all_sample :
  app_send_message_res file_refused 42 image_warning 7 = Ok tt
  /\ new_events (relay_images file_refused (Sample.ask None) 0 (images three_images))
       Sample.configured
     = [ EvSave (GeneratedImage "http://g/1") TEMP_IMAGE_DIR "gemini_gen_0.png";
         EvSendPhoto 42 "temp_gemini_images/gemini_gen_0.png" 7;
         EvAppSendMessage 42 image_warning 7;
         EvSendPhoto 42 "http://w/2" 7 ].
Proof.
  split; [reflexivity|].
  exact (proj2 (relay_images_attempts_all file_refused (Sample.ask None) 0
                  (images three_images) Sample.configured eq_refl)).
Defined.

(** * Further properties of the module *)

(** ** [_safe_remove] and the [finally] clause *)

(** X1: [_safe_remove] never raises, touches no file but its own, calls
    nothing when the file is not there, and leaves the file behind only when
    its [unlink] raised. *)
Theorem safe_remove_total (w : world) (p : Path) (s : state) :
  let out := _safe_remove w p s in
  out.1 = Ok tt
  /\ (forall q, q <> p -> (q ∈ files out.2 <-> q ∈ files s))
  /\ (p ∈ files out.2 -> p ∈ files s /\ exists e, unlink_res w p = Raise e)
  /\ (p ∉ files s -> out.2 = s)
  /\ db out.2 = db s.
Proof.
  unfold _safe_remove, try_except, bind, path_exists, gets, unlink, call, ret.
  destruct (bool_decide (p ∈ files s)) eqn:E; simpl.
  - apply bool_decide_eq_true in E.
    destruct (unlink_res w p) as [[]|e]; simpl.
    + split; [reflexivity|]; split; [|split; [|split; [contradiction|reflexivity]]].
      * intros q Hq; rewrite elem_of_difference, elem_of_singleton; tauto.
      * intros Hp; apply elem_of_difference in Hp as [_ Hp].
        exfalso; apply Hp; by apply elem_of_singleton.
    + split; [reflexivity|]; split; [tauto|].
      split; [intros _; split; [exact E | by eexists]|].
      split; [contradiction | reflexivity].
  - apply bool_decide_eq_false in E.
    split; [reflexivity|]; split; [tauto|].
    split; [contradiction|]; split; reflexivity.
Qed.

(** X2: the [finally] clause never raises, calls nothing but [unlink], adds
    no file, and every path of [downloaded_files] and
    [generated_image_paths] whose [unlink] does not raise is gone after
    it, whatever happens to the others. *)
Theorem finally_clause_removes (w : world) (s : state) :
  let out := cleanup w s in
  out.1 = Ok tt
  /\ Forall (fun e => is_unlink e = true) (new_events (cleanup w) s)
  /\ files out.2 ⊆ files s
  /\ forall p, In p (downloaded_files s ++ generated_image_paths s) ->
               (forall e, unlink_res w p <> Raise e) -> p ∉ files out.2.
Proof.
  simpl; split; [apply cleanup_ok|]; split;
    [apply keeps_appends_new, cleanup_unlinks|]; split;
    [|intros p; apply cleanup_removes].
  unfold cleanup, bind, gets.
  destruct (for_each_safe_remove_effect w (downloaded_files s) s) as (Hf & _).
  pose proof (for_each_safe_remove_ok w (downloaded_files s) s) as Hok.
  destruct (for_each _ _ s) as [[[]|e] s1]; simpl in *; [|discriminate].
  destruct (for_each_safe_remove_effect w (generated_image_paths s1) s1) as (Hf' & _).
  intros x Hx; by apply Hf, Hf'.
Qed.

(** ** [_save_generated_image] *)

(** X3: [_save_generated_image] never raises and makes the one call
    [image.save]; when it returns a path, that path is the temp file of the
    image index and the file exists; when the save raises it returns
    [None]. *)
Theorem save_generated_image_total (w : world) (img : image) (i : nat) (s : state) :
  let out := _save_generated_image w img i s in
  let filename := ("gemini_gen_" ++ str_of_nat i ++ ".png")%string in
  exists r,
    out.1 = Ok r
    /\ new_events (_save_generated_image w img i) s
       = [EvSave img TEMP_IMAGE_DIR filename]
    /\ (forall p, r = Some p -> p = generated_path i /\ p ∈ files out.2)
    /\ (forall e, save_res w img filename = Raise e -> r = None)
    /\ db out.2 = db s.
Proof.
  simpl.
  destruct (save_generated_image_run w img i s) as (r & s1 & E & Ht & _ & Hr).
  exists r; rewrite E; simpl; split; [reflexivity|]; split; [|split; [|split]].
  - apply new_events_app; by rewrite E.
  - intros p ->; destruct Hr as [Hr|[Hr Hin]]; [discriminate|].
    injection Hr as ->; split; [reflexivity | exact Hin].
  - intros e He; revert E.
    unfold _save_generated_image, try_except, image_save, bind, call.
    rewrite He; by intros [= <- _].
  - revert E.
    unfold _save_generated_image, try_except, image_save, bind, call,
      path_exists, gets, ret.
    destruct (save_res w img _) as [[]|e]; simpl;
      try destruct (bool_decide _); by intros [= _ <-].
Qed.

(** ** Who the handlers answer to, and when they raise *)

(** The first answer of a handler: its call and its outcome. *)
Lemma respond_run w m t s :
  respond w m t s
  = (match answer_res w m t with Ok _ => Ok WaitMsg | Raise x => Raise x end,
     log (answer m t) s).
Proof.
  unfold respond, answer_res, answer, edit, reply, bind, call, ret.
  destruct (is_self m);
    [destruct (edit_res w Incoming t) as [[]|x]
    | destruct (reply_res w t) as [[]|x]]; reflexivity.
Qed.

(** An answer that ends the handler. *)
Lemma answer_only w m t s e :
  (bind (respond w m t) (fun _ => ret tt) s).1 = Raise e ->
  new_events (bind (respond w m t) (fun _ => ret tt)) s = [answer m t]
  /\ answer_res w m t = Raise e.
Proof.
  unfold new_events, bind; rewrite respond_run.
  destruct (answer_res w m t) as [[]|x]; simpl; [discriminate|].
  intros [= ->]; split; [apply drop_app_length | reflexivity].
Qed.

(** [gemini_run] after its Thinking answer. *)
Lemma gemini_run_unfold w m prompt s :
  gemini_run w m prompt s
  = match answer_res w m thinking with
    | Ok _ =>
        try_finally
          (try_except (gemini_body w m prompt WaitMsg) (on_error w WaitMsg))
          (cleanup w)
          (with_generated [] (with_downloaded [] (log (answer m thinking) s)))
    | Raise x => (Raise x, log (answer m thinking) s)
    end.
Proof.
  unfold gemini_run, bind at 1; rewrite respond_run.
  by destruct (answer_res w m thinking) as [[]|x].
Qed.

(** X4: [gemini_query] raises only what the chat client raised on one of
    the handler's own answers.  Either the first answer (the usage, the
    empty-prompt or the Thinking message) is the one call of the run and the
    chat client refused it; or the [try] suite raised, the error report of
    that exception is the last call before the removal of the temp files,
    and the chat client refused that report.  No failure of the download, of
    the settings, of the AI service or of the file system makes the handler
    raise. *)
Theorem gemini_query_raises_only_own_answer (w : world) (m : message) (s : state)
    (e : exn) :
  (gemini_query w m s).1 = Raise e ->
  let t := new_events (gemini_query w m) s in
  let suite := gemini_body w m (prompt_of m) WaitMsg in
  let s0 := with_generated [] (with_downloaded [] (log (answer m thinking) s)) in
  (t = [answer m (first_answer m)] /\ answer_res w m (first_answer m) = Raise e)
  \/ (exists x post,
        (suite s0).1 = Raise x
        /\ t = answer m thinking
               :: new_events suite s0 ++ EvEdit WaitMsg (error_text x) None :: post
        /\ Forall (fun ev => is_unlink ev = true) post
        /\ edit_res w WaitMsg (error_text x) = Raise e).
Proof.
  unfold gemini_query, first_answer; fold (prompt_of m).
  destruct (_ <? _)%nat; [intros H; left; by apply answer_only|].
  destruct (PyStr.truthy (prompt_of m)); simpl;
    [|intros H; left; by apply answer_only].
  unfold new_events; rewrite gemini_run_unfold.
  destruct (answer_res w m thinking) as [[]|x0] eqn:Ea.
  2: { simpl; intros [= ->]; left; split; [apply drop_app_length | reflexivity]. }
  intros H; right; revert H.
  unfold try_finally, try_except.
  assert (keeps (appends (fun _ => true)) (gemini_body w m (prompt_of m) WaitMsg))
    as K by keeps_fun.
  pose proof (trace_grows _
    (with_generated [] (with_downloaded [] (log (answer m thinking) s))) K) as T.
  destruct (gemini_body w m (prompt_of m) WaitMsg _) as [[[]|x] s1]; simpl in T.
  - pose proof (cleanup_ok w s1) as Hok.
    destruct (cleanup w s1) as [[[]|y] s2]; simpl in *; discriminate.
  - unfold on_error, edit, bind, call, ret.
    pose proof (cleanup_ok w (log (EvEdit WaitMsg (error_text x) None) s1)) as Hok.
    destruct (cleanup_unlinks w (log (EvEdit WaitMsg (error_text x) None) s1))
      as (post & Hpost & Fpost).
    destruct (edit_res w WaitMsg (error_text x)) as [[]|y] eqn:Ey; simpl;
      destruct (cleanup w _) as [[[]|z] s2]; simpl in *; try discriminate.
    intros [= <-]; exists x, post; repeat split; auto.
    rewrite Hpost, T; simpl.
    rewrite (drop_app_length (trace s ++ [answer m thinking])), <- !app_assoc.
    by rewrite drop_app_length.
Qed.

Lemma gemini_query_raises_only_own_answer_sample :
  (gemini_query mute (Sample.ask None) Sample.configured).1
  = Raise (OtherException "ChatWriteForbidden")
  /\ new_events (gemini_query mute (Sample.ask None)) Sample.configured
     = [EvReply thinking].
Proof.
  split; [reflexivity|].
  destruct (gemini_query_raises_only_own_answer mute (Sample.ask None)
              Sample.configured (OtherException "ChatWriteForbidden") eq_refl)
    as [[H _]|(x & post & _ & _ & _ & H)]; [exact H | discriminate H].
Defined.

(** [keeps] through a [bind], knowing what the first part returns. *)
Lemma keeps_bind_post (R : state -> state -> Prop) `{!PreOrder R} {A B}
    (Q : A -> Prop) (mm : M A) (f : A -> M B) :
  (forall s a s', mm s = (Ok a, s') -> Q a) ->
  keeps R mm -> (forall a, Q a -> keeps R (f a)) -> keeps R (bind mm f).
Proof.
  intros HQ Hm Hf s; unfold bind.
  specialize (Hm s); specialize (HQ s).
  destruct (mm s) as [[a|e] s1]; simpl in *; [|exact Hm].
  etransitivity; [exact Hm | apply Hf; eapply HQ; eauto].
Qed.

(** [gemini_run] keeps what all its parts keep, [wait_msg] being the
    message of the first answer. *)
Lemma keeps_gemini_run (R : state -> state -> Prop) `{!PreOrder R} w m prompt :
  keeps R (respond w m thinking) ->
  keeps R (modify (with_downloaded [])) ->
  keeps R (modify (with_generated [])) ->
  keeps R (gemini_body w m prompt WaitMsg) ->
  (forall e, keeps R (on_error w WaitMsg e)) ->
  keeps R (cleanup w) ->
  keeps R (gemini_run w m prompt).
Proof.
  intros H1 H2 H3 H4 H5 H6; unfold gemini_run.
  apply keeps_bind_post with (Q := fun a => a = WaitMsg);
    [tc_solve | intros s a s'; apply respond_returns | exact H1 | intros ? ->].
  apply keeps_bind; [tc_solve | exact H2 | intros _].
  apply keeps_bind; [tc_solve | exact H3 | intros _].
  apply keeps_try_finally; [tc_solve | | exact H6].
  apply keeps_try_except; [tc_solve | exact H4 | exact H5].
Qed.

(** X5: both handlers answer the way the sender allows: they never edit
    the incoming message of another user and never reply to the user's own
    message. *)
Theorem handlers_route_by_sender (w : world) (m : message) (s : state) :
  Forall (fun e => route_ok (is_self m) e = true) (new_events (gemini_query w m) s)
  /\ Forall (fun e => route_ok (is_self m) e = true) (new_events (set_gemini w m) s).
Proof.
  split; apply keeps_appends_new; [|keeps_fun].
  unfold gemini_query.
  destruct (_ <? _)%nat; [keeps_fun|].
  destruct (negb _); [keeps_fun|].
  apply keeps_gemini_run;
    [tc_solve | keeps_fun | keeps_fun | keeps_fun | keeps_fun | intros e; keeps_fun
    | keeps_fun].
Qed.

(** ** Stripping and splitting, continued *)

Lemma lstrip_head s :
  match PyStr.lstrip s with
  | EmptyString => True
  | String c _ => PyStr.isspace c = false
  end.
Proof.
  induction s as [|c r IH]; simpl; [exact I|].
  destruct (PyStr.isspace c) eqn:E; [exact IH | exact E].
Qed.

Lemma rstrip_idempotent s : PyStr.rstrip (PyStr.rstrip s) = PyStr.rstrip s.
Proof.
  induction s as [|c r IH]; simpl; [reflexivity|].
  destruct (PyStr.rstrip r) as [|a b] eqn:E.
  - destruct (PyStr.isspace c) eqn:Ec; simpl; [reflexivity | by rewrite Ec].
  - simpl in IH |- *. by rewrite IH.
Qed.

Lemma rstrip_keeps_head c r :
  PyStr.isspace c = false -> exists r', PyStr.rstrip (String c r) = String c r'.
Proof.
  intros E; simpl; destruct (PyStr.rstrip r); [rewrite E|]; eauto.
Qed.

Lemma strip_idempotent s : PyStr.strip (PyStr.strip s) = PyStr.strip s.
Proof.
  unfold PyStr.strip.
  pose proof (lstrip_head s) as H.
  destruct (PyStr.lstrip s) as [|c r]; [reflexivity|].
  destruct (rstrip_keeps_head c r H) as (r' & E).
  rewrite E; simpl PyStr.lstrip; rewrite H, <- E.
  apply rstrip_idempotent.
Qed.

Lemma split_two_truthy c a b :
  PyStr.split "|" (PyStr.strip c) = [a; b] -> PyStr.truthy c = true.
Proof. destruct c; [discriminate | reflexivity]. Qed.

Lemma get_client_valid_run w s c psid psidts :
  db s !! ("custom.gemini", "cookie")%string = Some (VStr c) ->
  PyStr.split "|" (PyStr.strip c) = [psid; psidts] ->
  PyStr.truthy psid = true -> PyStr.truthy psidts = true ->
  let cl := {| secure_1psid := psid; secure_1psidts := psidts |} in
  let s1 :=
    log (EvClientInit cl)
      (log (EvNewClient psid psidts)
         (with_dirs (fun d => {[GEMINI_COOKIE_DIR]} ∪ d)
            (with_environ (insert "GEMINI_COOKIE_PATH"%string GEMINI_COOKIE_DIR)
               (log (EvDbGet "custom.gemini" "cookie") s)))) in
  match init_res w cl with
  | Raise e => get_client w s = (Raise e, s1)
  | Ok _ =>
      exists s2 t,
        get_client w s = (Ok cl, s2)
        /\ trace s2 = trace s1 ++ EvCookiesGet cl :: t
        /\ environ s2 = environ s1 /\ dirs s2 = dirs s1 /\ files s2 = files s1
  end.
Proof.
  intros Hc Hs H1 H2; simpl.
  destruct c as [|c0 c]; [discriminate Hs|].
  unfold get_client, bind, db_get, modify, mkdir, call, try_except, ret.
  rewrite Hc; cbn [truthy_val PyStr.truthy negb]; rewrite Hs, H1, H2; simpl.
  destruct (init_res w _) as [[]|e]; [|reflexivity].
  destruct (cookies_get_res w _) as [[n|]|e]; simpl.
  - destruct (PyStr.truthy n && negb (String.eqb n psidts)); simpl.
    + eexists; exists [EvDbSet "custom.gemini" "cookie" (VStr (psid ++ "|" ++ n)%string)].
      split; [reflexivity|]; simpl; repeat split; by rewrite <- app_assoc.
    + eexists; exists []; split; [reflexivity|]; repeat split; reflexivity.
  - eexists; exists []; split; [reflexivity|]; repeat split; reflexivity.
  - eexists; exists []; split; [reflexivity|]; repeat split; reflexivity.
Qed.

Lemma split_one sep s b : PyStr.split sep s = [b] -> b = s.
Proof.
  revert b; induction s as [|c r IH]; intros b; simpl; [by intros [= <-]|].
  destruct (Ascii.eqb c sep).
  - intros [= _ H]; by apply split_not_nil in H.
  - destruct (PyStr.split sep r) as [|h t] eqn:Er; [by apply split_not_nil in Er|].
    intros [= <- ->]; by rewrite (IH h eq_refl).
Qed.

Lemma split_two_join sep s a b :
  PyStr.split sep s = [a; b] -> s = (a ++ String sep b)%string.
Proof.
  revert a; induction s as [|c r IH]; intros a; simpl; [discriminate|].
  destruct (Ascii.eqb c sep) eqn:E.
  - apply Ascii.eqb_eq in E as ->.
    intros [= <- H]; by rewrite (split_one _ _ _ H).
  - destruct (PyStr.split sep r) as [|h [|h' [|x t]]] eqn:Er; try discriminate.
    intros [= <- <-]; simpl; by rewrite (IH h eq_refl).
Qed.

Lemma get_client_cases w s :
  (exists e, get_client w s = (Raise e, log (EvDbGet "custom.gemini" "cookie") s)
             /\ In e [ ValueError "No Gemini cookies configured. Use set_gemini command.";
                       ValueError "Invalid cookie format. Use: __Secure-1PSID|__Secure-1PSIDTS";
                       ValueError "Invalid cookie values. Both parts must be non-empty.";
                       OtherException "AttributeError" ]%string)
  \/ (exists c psid psidts,
         db s !! ("custom.gemini", "cookie")%string = Some (VStr c)
         /\ PyStr.split "|" (PyStr.strip c) = [psid; psidts]
         /\ PyStr.truthy psid = true /\ PyStr.truthy psidts = true).
Proof.
  unfold get_client, bind, db_get.
  destruct (db s !! ("custom.gemini", "cookie")%string) as [[c|l]|] eqn:Hc.
  - destruct c as [|c0 c]; [left; eexists; split; [reflexivity | simpl; tauto]|].
    cbn [truthy_val PyStr.truthy negb].
    destruct (PyStr.split "|" (PyStr.strip (String c0 c))) as [|psid [|psidts [|x l]]] eqn:Hs;
      try (left; eexists; split; [reflexivity | simpl; tauto]).
    destruct (PyStr.truthy psid) eqn:H1;
      [|left; eexists; split; [reflexivity | simpl; tauto]].
    destruct (PyStr.truthy psidts) eqn:H2;
      [|left; eexists; split; [reflexivity | simpl; tauto]].
    right; exists (String c0 c), psid, psidts; by repeat split.
  - destruct l; left; eexists; (split; [reflexivity | simpl; tauto]).
  - left; eexists; split; [reflexivity | simpl; tauto].
Qed.

(** ** [get_client] *)

(** X6: [get_client] returns a client exactly when the stored cookie is a
    string whose stripped form splits into two non-empty parts and the
    initialisation of the client built from them does not raise; the client
    it returns carries those two parts.  What the cookie refresh does, or
    whether it raises, does not matter. *)
Theorem get_client_returns_iff (w : world) (s : state) (cl : client) :
  (get_client w s).1 = Ok cl
  <-> exists c,
        db s !! ("custom.gemini", "cookie")%string = Some (VStr c)
        /\ PyStr.split "|" (PyStr.strip c) = [secure_1psid cl; secure_1psidts cl]
        /\ PyStr.truthy (secure_1psid cl) = true
        /\ PyStr.truthy (secure_1psidts cl) = true
        /\ init_res w cl = Ok tt.
Proof.
  split.
  - intros Hok.
    destruct (get_client_cases w s) as [(e & E & _)|(c & psid & psidts & Hc & Hs & H1 & H2)].
    + rewrite E in Hok; discriminate.
    + pose proof (get_client_valid_run w s c psid psidts Hc Hs H1 H2) as Hrun.
      simpl in Hrun.
      destruct (init_res w _) as [[]|e] eqn:Hi.
      * destruct Hrun as (s2 & t & E & _); rewrite E in Hok.
        injection Hok as <-; exists c; by repeat split.
      * rewrite Hrun in Hok; discriminate.
  - intros (c & Hc & Hs & H1 & H2 & Hi).
    pose proof (get_client_valid_run w s c _ _ Hc Hs H1 H2) as Hrun.
    simpl in Hrun; destruct cl as [psid psidts]; simpl in *.
    rewrite Hi in Hrun; destruct Hrun as (s2 & t & E & _); by rewrite E.
Qed.

(** X7: a cookie that does not pass the checks of [get_client] costs
    nothing: the function raises one of its own errors after the one read
    of the store, having created no directory, set no variable and called no
    service.  Otherwise it goes on to construct the client, and from then on
    the cookie directory exists and [GEMINI_COOKIE_PATH] points to it. *)
Theorem get_client_fails_clean (w : world) (s : state) :
  (exists e,
      get_client w s = (Raise e, log (EvDbGet "custom.gemini" "cookie") s)
      /\ In e [ ValueError "No Gemini cookies configured. Use set_gemini command.";
                ValueError "Invalid cookie format. Use: __Secure-1PSID|__Secure-1PSIDTS";
                ValueError "Invalid cookie values. Both parts must be non-empty.";
                OtherException "AttributeError" ]%string)
  \/ (exists psid psidts t,
         new_events (get_client w) s
         = EvDbGet "custom.gemini" "cookie" :: EvNewClient psid psidts
             :: EvClientInit {| secure_1psid := psid; secure_1psidts := psidts |} :: t
         /\ environ (get_client w s).2 !! "GEMINI_COOKIE_PATH"%string
            = Some GEMINI_COOKIE_DIR
         /\ GEMINI_COOKIE_DIR ∈ dirs (get_client w s).2
         /\ files (get_client w s).2 = files s).
Proof.
  destruct (get_client_cases w s) as [H|(c & psid & psidts & Hc & Hs & H1 & H2)];
    [by left | right].
  pose proof (get_client_valid_run w s c psid psidts Hc Hs H1 H2) as Hrun.
  simpl in Hrun; exists psid, psidts.
  destruct (init_res w _) as [[]|e].
  - destruct Hrun as (s2 & t & E & Ht & He & Hd & Hf).
    exists (EvCookiesGet {| secure_1psid := psid; secure_1psidts := psidts |} :: t).
    unfold new_events; rewrite E; simpl; rewrite Ht, He, Hd, Hf; simpl.
    split; [|split; [apply lookup_insert_eq|split; [|reflexivity]]].
    + rewrite <- !app_assoc; apply drop_app_length.
    + apply elem_of_union; left; by apply elem_of_singleton.
  - exists []; unfold new_events; rewrite Hrun; simpl.
    split; [|split; [apply lookup_insert_eq|split; [|reflexivity]]].
    + rewrite <- !app_assoc; apply drop_app_length.
    + apply elem_of_union; left; by apply elem_of_singleton.
Qed.

(** ** [set_gemini] *)

Lemma respond_state w m t s :
  (respond w m t s).2 = log (if is_self m then EvEdit Incoming t None else EvReply t) s.
Proof.
  unfold respond, edit, reply, bind, call, ret.
  destruct (is_self m); [destruct (edit_res w Incoming t) | destruct (reply_res w t)];
    reflexivity.
Qed.

Lemma answer_state w m t s :
  (bind (respond w m t) (fun _ => ret tt) s).2
  = log (if is_self m then EvEdit Incoming t None else EvReply t) s.
Proof.
  rewrite <- (respond_state w m t s); unfold bind.
  by destruct (respond w m t s) as [[a|e] s1].
Qed.

(** [set_gemini] on an argument that passes its test. *)
Lemma set_gemini_run w m s t c0 rest l :
  (List.length (command m) <? 2)%nat = false ->
  text m = Some t ->
  PyStr.split_maxsplit1 t = c0 :: rest :: l ->
  set_gemini_rejects (PyStr.strip rest) = false ->
  (set_gemini w m s).2
  = log (if is_self m then EvEdit Incoming set_success None else EvReply set_success)
      (with_db (insert ("custom.gemini", "cookie")%string (VStr (PyStr.strip rest)))
         (log (EvDbSet "custom.gemini" "cookie" (VStr (PyStr.strip rest))) s)).
Proof.
  intros Hlen Ht Hs Hok; unfold set_gemini; rewrite Hlen, Ht, Hs, Hok.
  unfold bind at 1, db_set; apply answer_state.
Qed.

(** X8: [set_gemini] either leaves the settings store as it was, or sets
    the one key [cookie] to a string that is stripped of surrounding
    whitespace and splits into exactly two parts around the bar, and then
    answers with the success message. *)
Theorem set_gemini_store_effect (w : world) (m : message) (s : state) :
  db (set_gemini w m s).2 = db s
  \/ exists c,
       db (set_gemini w m s).2 = <[ ("custom.gemini", "cookie")%string := VStr c ]> (db s)
       /\ PyStr.strip c = c
       /\ List.length (PyStr.split "|" c) = 2%nat
       /\ new_events (set_gemini w m) s
          = [ EvDbSet "custom.gemini" "cookie" (VStr c);
              if is_self m then EvEdit Incoming set_success None
              else EvReply set_success ].
Proof.
  destruct (List.length (command m) <? 2)%nat eqn:Hlen.
  { left; unfold set_gemini; rewrite Hlen; by rewrite answer_state. }
  destruct (text m) as [t|] eqn:Ht.
  2: { left; unfold set_gemini; by rewrite Hlen, Ht. }
  destruct (PyStr.split_maxsplit1 t) as [|c0 [|rest l]] eqn:Hs.
  1,2: left; unfold set_gemini; by rewrite Hlen, Ht, Hs.
  destruct (set_gemini_rejects (PyStr.strip rest)) eqn:Hrej.
  { left; unfold set_gemini; rewrite Hlen, Ht, Hs, Hrej; by rewrite answer_state. }
  right; exists (PyStr.strip rest).
  unfold new_events; rewrite (set_gemini_run w m s t c0 rest l Hlen Ht Hs Hrej); simpl.
  split; [reflexivity|]; split; [apply strip_idempotent|]; split.
  - unfold set_gemini_rejects in Hrej; apply orb_false_elim in Hrej as [_ H].
    apply negb_false_iff in H; by apply Nat.eqb_eq in H.
  - by rewrite <- app_assoc, drop_app_length.
Qed.

(** X9: what [set_gemini] stores, [get_client] reads back.  When the
    argument splits into two non-empty parts, the stored string is the two
    parts around a bar, and a later [get_client] constructs its client from
    exactly those two parts and returns it unless the initialisation
    raises. *)
Theorem set_gemini_then_get_client (w w' : world) (m : message) (s : state)
    (t c0 rest : string) (l : list string) (psid psidts : string) :
  (List.length (command m) <? 2)%nat = false ->
  text m = Some t ->
  PyStr.split_maxsplit1 t = c0 :: rest :: l ->
  PyStr.split "|" (PyStr.strip rest) = [psid; psidts] ->
  PyStr.truthy psid = true -> PyStr.truthy psidts = true ->
  let s1 := (set_gemini w m s).2 in
  let cl := {| secure_1psid := psid; secure_1psidts := psidts |} in
  db s1 !! ("custom.gemini", "cookie")%string = Some (VStr (psid ++ "|" ++ psidts)%string)
  /\ In (EvNewClient psid psidts) (new_events (get_client w') s1)
  /\ (get_client w' s1).1
     = match init_res w' cl with Ok _ => Ok cl | Raise e => Raise e end.
Proof.
  intros Hlen Ht Hs Hparts H1 H2 s1 cl.
  assert (set_gemini_rejects (PyStr.strip rest) = false) as Hok.
  { unfold set_gemini_rejects.
    by rewrite (split_two_contains _ _ _ _ Hparts), Hparts. }
  assert (db s1 !! ("custom.gemini", "cookie")%string = Some (VStr (PyStr.strip rest)))
    as Hdb.
  { unfold s1; rewrite (set_gemini_run w m s t c0 rest l Hlen Ht Hs Hok); simpl.
    apply lookup_insert_eq. }
  assert (PyStr.split "|" (PyStr.strip (PyStr.strip rest)) = [psid; psidts]) as Hparts'
    by (by rewrite strip_idempotent).
  pose proof (get_client_valid_run w' s1 _ psid psidts Hdb Hparts' H1 H2) as Hrun.
  simpl in Hrun; fold cl in Hrun.
  split; [by rewrite Hdb, (split_two_join _ _ _ _ Hparts)|].
  unfold new_events.
  destruct (init_res w' cl) as [[]|e].
  - destruct Hrun as (s2 & t' & E & Htr & _); rewrite E; simpl; split; [|reflexivity].
    rewrite Htr; simpl; rewrite <- !app_assoc, drop_app_length; simpl; tauto.
  - rewrite Hrun; simpl; split; [|reflexivity].
    rewrite <- !app_assoc, drop_app_length; simpl; tauto.
Qed.

Lemma set_gemini_then_get_client_sample :
  let s1 := (set_gemini Sample.fine (Sample.set_cookie "PSID|TS") Sample.blank).2 in
  db s1 !! ("custom.gemini", "cookie")%string = Some (VStr "PSID|TS")
  /\ (get_client hostile s1).1 = Raise (OtherException "AuthError").
Proof.
  destruct (set_gemini_then_get_client Sample.fine hostile (Sample.set_cookie "PSID|TS")
              Sample.blank "/set_gemini PSID|TS" "/set_gemini" "PSID|TS" [] "PSID" "TS"
              eq_refl eq_refl eq_refl eq_refl eq_refl eq_refl) as (H1 & _ & H3).
  split; [exact H1 | exact H3].
Defined.

(** ** A query without a prompt, and the import *)

(** X10: when the command comes without a prompt ([gemini] alone, or
    followed by blank words only), [gemini_query] answers with the usage or
    the empty-prompt text and does nothing else: the state is the one
    before, with that one answer logged. *)
Theorem gemini_query_without_prompt (w : world) (m : message) (s : state) :
  (List.length (command m) <? 2)%nat || negb (PyStr.truthy (prompt_of m)) = true ->
  let t := if (List.length (command m) <? 2)%nat then gemini_usage else prompt_empty in
  (gemini_query w m s).2
  = log (if is_self m then EvEdit Incoming t None else EvReply t) s.
Proof.
  intros H; simpl; unfold gemini_query; fold (prompt_of m).
  destruct (List.length (command m) <? 2)%nat; [apply answer_state|].
  simpl in H; rewrite H; apply answer_state.
Qed.

Lemma gemini_query_without_prompt_sample :
  let m := {| msg_id := 9; chat_id := 42; from_user := None;
              command := ["gemini"; "   "]%string; text := Some "/gemini '   '"%string;
              reply_to_message := Some Sample.crowded |} in
  (gemini_query hostile m Sample.configured).2
  = log (EvReply prompt_empty) Sample.configured.
Proof.
  intros m.
  apply (gemini_query_without_prompt hostile m Sample.configured); reflexivity.
Defined.

(** X11: the set-up of lines 15-24 is idempotent: run twice it leaves the
    state of the first run.  It creates the three directories, keeps a
    [GEMINI_COOKIE_PATH] that is already set and sets it to the cookie
    directory otherwise, and touches neither the settings store nor any
    file. *)
Theorem module_init_idempotent (s : state) :
  let s1 := (module_init s).2 in
  (module_init s1).2 = s1
  /\ module_dirs ⊆ dirs s1
  /\ environ s1 !! "GEMINI_COOKIE_PATH"%string
     = Some (default GEMINI_COOKIE_DIR (environ s !! "GEMINI_COOKIE_PATH"%string))
  /\ db s1 = db s /\ files s1 = files s /\ trace s1 = trace s.
Proof.
  unfold module_init, bind, mkdir, modify; simpl.
  split; [|split; [|split; [|by repeat split]]].
  - unfold with_environ, with_dirs; simpl; f_equal.
    + apply set_eq; intros x; rewrite !elem_of_union; tauto.
    + destruct (environ s !! "GEMINI_COOKIE_PATH"%string) as [v|] eqn:E.
      * by rewrite E.
      * by rewrite lookup_insert_eq.
  - unfold module_dirs; intros x; rewrite !elem_of_union, !elem_of_singleton; tauto.
  - destruct (environ s !! "GEMINI_COOKIE_PATH"%string) as [v|] eqn:E; simpl;
      [exact E | apply lookup_insert_eq].
Qed.

(** ** The conversation metadata *)

(** [open_chat], call by call. *)
Lemma open_chat_run w cl s :
  let s0 := log (EvDbGet "custom.gemini" "chat_metadata") s in
  let md := db s !! ("custom.gemini", "chat_metadata")%string in
  let stored := {| chat_client := cl; chat_start_metadata := md;
                   chat_model := DEFAULT_MODEL |} in
  let s1 := log (EvStartChat cl md DEFAULT_MODEL) s0 in
  open_chat w cl s
  = if truthy_val md then
      match start_chat_res w cl md DEFAULT_MODEL with
      | Ok _ => (Ok stored, s1)
      | Raise _ =>
          match start_chat_res w cl None DEFAULT_MODEL with
          | Ok _ =>
              (Ok (fresh_chat cl),
               with_db (delete ("custom.gemini", "chat_metadata")%string)
                 (log (EvDbDelete "custom.gemini" "chat_metadata")
                    (log (EvStartChat cl None DEFAULT_MODEL) s1)))
          | Raise e2 => (Raise e2, log (EvStartChat cl None DEFAULT_MODEL) s1)
          end
      end
    else
      match start_chat_res w cl None DEFAULT_MODEL with
      | Ok _ => (Ok (fresh_chat cl), log (EvStartChat cl None DEFAULT_MODEL) s0)
      | Raise e => (Raise e, log (EvStartChat cl None DEFAULT_MODEL) s0)
      end.
Proof.
  simpl; unfold open_chat, bind at 1, db_get.
  destruct (truthy_val (db s !! ("custom.gemini", "chat_metadata")%string)).
  - unfold try_except, start_chat, bind, call, ret, db_delete.
    destruct (start_chat_res w cl (db s !! _) DEFAULT_MODEL) as [[]|e]; [reflexivity|].
    by destruct (start_chat_res w cl None DEFAULT_MODEL) as [[]|e2].
  - unfold start_chat, bind, call, ret.
    by destruct (start_chat_res w cl None DEFAULT_MODEL) as [[]|e].
Qed.

(** X12: [open_chat] drops the stored conversation only when it failed to
    open and a fresh chat could be started.  Stored metadata that opens a
    chat is kept and the chat returned is started from it; when the fresh
    start raises too, that exception goes out and the stale entry stays in
    the store. *)
Theorem open_chat_keeps_entry (w : world) (cl : client) (s : state) :
  let out := open_chat w cl s in
  let key := ("custom.gemini", "chat_metadata")%string in
  (db out.2 = db s
   \/ exists md e,
        db s !! key = Some md
        /\ start_chat_res w cl (Some md) DEFAULT_MODEL = Raise e
        /\ start_chat_res w cl None DEFAULT_MODEL = Ok tt
        /\ out.1 = Ok (fresh_chat cl)
        /\ db out.2 = delete key (db s))
  /\ (forall md, db s !! key = Some md -> truthy_val (Some md) = true ->
        start_chat_res w cl (Some md) DEFAULT_MODEL = Ok tt ->
        out.1 = Ok {| chat_client := cl; chat_start_metadata := Some md;
                      chat_model := DEFAULT_MODEL |}
        /\ db out.2 = db s)
  /\ (forall md e1 e2, db s !! key = Some md -> truthy_val (Some md) = true ->
        start_chat_res w cl (Some md) DEFAULT_MODEL = Raise e1 ->
        start_chat_res w cl None DEFAULT_MODEL = Raise e2 ->
        out.1 = Raise e2 /\ db out.2 = db s).
Proof.
  cbv zeta; rewrite open_chat_run; cbv zeta.
  split; [|split].
  - destruct (db s !! ("custom.gemini", "chat_metadata")%string) as [md|] eqn:Hmd.
    + destruct (truthy_val (Some md)).
      * destruct (start_chat_res w cl (Some md) DEFAULT_MODEL) as [[]|e] eqn:E1;
          [by left|].
        destruct (start_chat_res w cl None DEFAULT_MODEL) as [[]|e2] eqn:E2;
          [|by left].
        right; exists md, e; repeat split; auto.
      * left; by destruct (start_chat_res w cl None DEFAULT_MODEL) as [[]|e].
    + left; simpl; by destruct (start_chat_res w cl None DEFAULT_MODEL) as [[]|e].
  - intros md Hmd Ht Hok; by rewrite Hmd, Ht, Hok.
  - intros md e1 e2 Hmd Ht H1 H2; by rewrite Hmd, Ht, H1, H2.
Qed.

(** X13: the metadata of one exchange is what the next one starts from.
    Once the request has returned with non-empty chat metadata,
    [relay_response] stores it under [chat_metadata] whatever happens while
    the answer is relayed, and a later [open_chat] reads it back and starts
    the chat from exactly that metadata with the default model. *)
Theorem metadata_round_trip (w w' : world) (m : message) (prompt : string)
    (wm : msgref) (snt : sent) (cl : client) (s : state) :
  sent_metadata snt <> [] ->
  let s1 := (relay_response w m prompt wm snt s).2 in
  let md := VList (sent_metadata snt) in
  db s1 !! ("custom.gemini", "chat_metadata")%string = Some md
  /\ exists t,
       new_events (open_chat w' cl) s1
       = EvDbGet "custom.gemini" "chat_metadata"
           :: EvStartChat cl (Some md) DEFAULT_MODEL :: t.
Proof.
  intros Hne s1 md.
  assert (db s1 !! ("custom.gemini", "chat_metadata")%string = Some md) as Hdb.
  { unfold s1, relay_response, bind at 1.
    destruct (sent_metadata snt) as [|x l] eqn:E; [done|].
    unfold db_set.
    match goal with
    | |- db (?rest ?s0).2 !! _ = _ =>
        assert (keeps (db_frame []) rest) as K by keeps_fun;
        rewrite (K s0 _ (not_elem_of_nil _))
    end.
    subst md; rewrite ?E; apply lookup_insert_eq. }
  split; [exact Hdb|].
  assert (truthy_val (Some md) = true) as Ht
    by (subst md; by destruct (sent_metadata snt)).
  unfold new_events; rewrite open_chat_run; cbv zeta; rewrite Hdb, Ht.
  destruct (start_chat_res w' cl (Some md) DEFAULT_MODEL) as [[]|e]; simpl.
  - exists []; by rewrite <- !app_assoc, drop_app_length.
  - destruct (start_chat_res w' cl None DEFAULT_MODEL) as [[]|e2]; simpl;
      eexists; rewrite <- !app_assoc, drop_app_length; reflexivity.
Qed.

Lemma metadata_round_trip_sample :
  let snt := {| sent_response := two_web; sent_metadata := ["c2"; "r2"; "rc2"]%string |} in
  let s1 := (relay_response hostile (Sample.ask None) "hello" WaitMsg snt
               Sample.with_history).2 in
  db s1 !! ("custom.gemini", "chat_metadata")%string
  = Some (VList ["c2"; "r2"; "rc2"]%string).
Proof.
  intros snt s1.
  apply (metadata_round_trip hostile Sample.fine (Sample.ask None) "hello" WaitMsg snt
           {| secure_1psid := "PSID"; secure_1psidts := "TS" |} Sample.with_history).
  discriminate.
Defined.

(** ** The request to the AI service *)

Lemma count_sends_app t1 t2 : count_sends (t1 ++ t2) = (count_sends t1 + count_sends t2)%nat.
Proof. unfold count_sends; by rewrite List.filter_app, length_app. Qed.

Lemma sends_le_none s s' : appends not_send_message s s' -> sends_le 0 s s'.
Proof.
  intros (t & E & F); exists t; split; [exact E|].
  clear E; unfold count_sends; induction F as [|e t He F IH]; simpl; [lia|].
  unfold not_send_message in He; apply negb_true_iff in He; rewrite He; exact IH.
Qed.

Lemma sends_le_trans a b s1 s2 s3 :
  sends_le a s1 s2 -> sends_le b s2 s3 -> sends_le (a + b) s1 s3.
Proof.
  intros (t1 & E1 & H1) (t2 & E2 & H2); exists (t1 ++ t2); split.
  - by rewrite E2, E1, app_assoc.
  - rewrite count_sends_app; lia.
Qed.

Lemma sends_le_weaken a b s s' : (a <= b)%nat -> sends_le a s s' -> sends_le b s s'.
Proof. intros Hab (t & E & H); exists t; split; [exact E | lia]. Qed.

Section Counting.

Context {A B : Type} (a b : nat).

Lemma count_bind (mm : M A) (f : A -> M B) :
  keeps (sends_le a) mm -> (forall x, keeps (sends_le b) (f x)) ->
  keeps (sends_le (a + b)) (bind mm f).
Proof.
  intros Hm Hf s; unfold bind.
  specialize (Hm s); destruct (mm s) as [[x|e] s1]; simpl in *.
  - eapply sends_le_trans; [exact Hm | apply Hf].
  - eapply sends_le_weaken; [|exact Hm]; lia.
Qed.

Lemma count_try_except (mm : M A) (h : exn -> M A) :
  keeps (sends_le a) mm -> (forall e, keeps (sends_le b) (h e)) ->
  keeps (sends_le (a + b)) (try_except mm h).
Proof.
  intros Hm Hh s; unfold try_except.
  specialize (Hm s); destruct (mm s) as [[x|e] s1]; simpl in *.
  - eapply sends_le_weaken; [|exact Hm]; lia.
  - eapply sends_le_trans; [exact Hm | apply Hh].
Qed.

Lemma count_try_finally (mm : M A) (f : M unit) :
  keeps (sends_le a) mm -> keeps (sends_le b) f ->
  keeps (sends_le (a + b)) (try_finally mm f).
Proof.
  intros Hm Hf s; unfold try_finally.
  specialize (Hm s); destruct (mm s) as [r s1]; simpl in *.
  specialize (Hf s1); destruct (f s1) as [[u|e] s2]; simpl in *;
    (eapply sends_le_trans; [exact Hm | exact Hf]).
Qed.

End Counting.

Section Request.

Variable w : world.

Lemma keeps_no_send {A} (mm : M A) :
  keeps (appends not_send_message) mm -> keeps (sends_le 0) mm.
Proof. intros K s; apply sends_le_none, K. Qed.

Lemma ask_and_relay_one_request m prompt wm ch :
  keeps (sends_le 1) (ask_and_relay w m prompt wm ch).
Proof.
  unfold ask_and_relay.
  apply (count_bind 0 1); [apply keeps_no_send; keeps_fun | intros dl].
  apply (count_bind 1 0); [|intros snt; apply keeps_no_send; keeps_fun].
  intros s; unfold send_message, call.
  destruct (send_message_res w ch prompt _); simpl;
    (eexists; split; [reflexivity | unfold count_sends; simpl; lia]).
Qed.

Lemma gemini_run_one_request m prompt : keeps (sends_le 1) (gemini_run w m prompt).
Proof.
  unfold gemini_run.
  apply (count_bind 0 1); [apply keeps_no_send; keeps_fun | intros wm].
  apply (count_bind 0 1); [apply keeps_no_send; keeps_fun | intros _].
  apply (count_bind 0 1); [apply keeps_no_send; keeps_fun | intros _].
  apply (count_try_finally 1 0); [|apply keeps_no_send; keeps_fun].
  apply (count_try_except 1 0); [|intros e; apply keeps_no_send; keeps_fun].
  unfold gemini_body.
  apply (count_bind 0 1); [apply keeps_no_send; keeps_fun | intros fl].
  apply (count_bind 0 1); [apply keeps_no_send; keeps_fun | intros _].
  apply (count_bind 0 1); [apply keeps_no_send; keeps_fun | intros cl].
  apply (count_bind 0 1); [apply keeps_no_send; keeps_fun | intros ch].
  apply ask_and_relay_one_request.
Qed.

Lemma open_chat_model cl s ch s' :
  open_chat w cl s = (Ok ch, s') -> chat_model ch = DEFAULT_MODEL.
Proof.
  rewrite open_chat_run; cbv zeta.
  destruct (truthy_val _).
  - destruct (start_chat_res w cl (db s !! _) DEFAULT_MODEL) as [[]|e];
      [by intros [= <- _]|].
    destruct (start_chat_res w cl None DEFAULT_MODEL) as [[]|e2];
      [by intros [= <- _] | discriminate].
  - destruct (start_chat_res w cl None DEFAULT_MODEL) as [[]|e];
      [by intros [= <- _] | discriminate].
Qed.

Lemma gemini_body_request m prompt :
  PyStr.truthy prompt = true ->
  keeps (appends (request_ok prompt)) (gemini_body w m prompt WaitMsg).
Proof.
  intros Ht; unfold gemini_body.
  apply keeps_bind; [tc_solve | keeps_fun | intros fl].
  apply keeps_bind; [tc_solve | keeps_fun | intros _].
  apply keeps_bind; [tc_solve | keeps_fun | intros cl].
  apply keeps_bind_post with (Q := fun ch => chat_model ch = DEFAULT_MODEL);
    [tc_solve | intros s ch s'; apply open_chat_model | keeps_fun | intros ch Hch].
  unfold ask_and_relay.
  apply keeps_bind; [tc_solve | keeps_fun | intros dl].
  apply keeps_bind; [tc_solve | | intros snt; keeps_fun].
  unfold send_message; apply keeps_call; [tc_solve | intros s | intros a s].
  - apply appends_log; simpl; by rewrite String.eqb_refl, Ht, Hch.
  - by apply appends_same.
Qed.

(** X14: one command makes at most one request to the AI service; the
    prompt of that request is the words of the command after the first,
    joined by single spaces and stripped, it is never empty, and the chat it
    is sent on uses the default model. *)
Theorem gemini_query_one_request (m : message) (s : state) :
  (count_sends (new_events (gemini_query w m) s) <= 1)%nat
  /\ forall ch p fa,
       In (EvSendMessage ch p fa) (new_events (gemini_query w m) s) ->
       p = prompt_of m /\ p <> ""%string /\ chat_model ch = DEFAULT_MODEL.
Proof.
  split.
  - assert (keeps (sends_le 1) (gemini_query w m)) as K.
    { unfold gemini_query.
      destruct (_ <? _)%nat;
        [intros s0; eapply sends_le_weaken; [|apply keeps_no_send; keeps_fun]; lia|].
      destruct (negb _);
        [intros s0; eapply sends_le_weaken; [|apply keeps_no_send; keeps_fun]; lia|].
      apply gemini_run_one_request. }
    destruct (K s) as (t & E & H); by rewrite (new_events_app _ _ _ E).
  - assert (Forall (fun e => request_ok (prompt_of m) e = true)
                   (new_events (gemini_query w m) s)) as F.
    { apply keeps_appends_new; unfold gemini_query; fold (prompt_of m).
      destruct (_ <? _)%nat; [keeps_fun|].
      destruct (PyStr.truthy (prompt_of m)) eqn:Ht; simpl; [|keeps_fun].
      apply keeps_gemini_run;
        [tc_solve | keeps_fun | keeps_fun | keeps_fun | by apply gemini_body_request
        | intros e; keeps_fun | keeps_fun]. }
    intros ch p fa Hin; rewrite List.Forall_forall in F; specialize (F _ Hin).
    simpl in F; apply andb_prop in F as [F Hm]; apply andb_prop in F as [Hp Ht].
    apply String.eqb_eq in Hp as ->; apply String.eqb_eq in Hm.
    repeat split; [|exact Hm]; intros E; by rewrite E in Ht.
Qed.

End Request.

(** ** What the handlers delete *)

#[local] Instance tidy_preorder : PreOrder tidy.
Proof.
  split.
  - intros s H; split; [exact H | reflexivity].
  - intros s1 s2 s3 H12 H23 H1.
    destruct (H12 H1) as [H2 A12]; destruct (H23 H2) as [H3 A23].
    split; [exact H3 | by etransitivity].
Qed.

Lemma tidy_log e s : unlink_temp e = true -> tidy s (log e s).
Proof. intros He H; split; [exact H | by apply appends_log]. Qed.

Lemma tidy_same s s' :
  downloaded_files s' = downloaded_files s ->
  generated_image_paths s' = generated_image_paths s ->
  trace s' = trace s ->
  tidy s s'.
Proof.
  intros Hd Hg Ht [H1 H2]; split; [|by apply appends_same].
  unfold temp_lists; by rewrite Hd, Hg.
Qed.

Lemma tidy_downloaded fl s :
  Forall (fun p => is_temp p = true) fl -> tidy s (with_downloaded fl s).
Proof. intros Hfl [_ H2]; split; [by split | by apply appends_same]. Qed.

Lemma tidy_generated p s :
  is_temp p = true ->
  tidy s (with_generated (generated_image_paths s ++ [p]) s).
Proof.
  intros Hp [H1 H2]; split; [|by apply appends_same].
  split; [exact H1|]; simpl; apply Forall_app; split; [exact H2 | by constructor].
Qed.

(** The leaves, with those of [tidy]. *)
Ltac keeps_leaf ::=
  first
    [ apply appends_log; reflexivity
    | apply appends_same; reflexivity
    | apply db_frame_same; reflexivity
    | apply db_frame_insert; set_solver
    | apply db_frame_delete; set_solver
    | apply dirs_within_same; reflexivity
    | apply dirs_within_mkdir; set_solver
    | apply tidy_log; reflexivity
    | apply tidy_same; reflexivity ].

Section Tidy.

Variable w : world.

Lemma first_media_temp r attrs dest :
  first_media r attrs = Some dest -> is_temp dest = true.
Proof.
  induction attrs as [|attr rest IH]; simpl; [discriminate|].
  destruct (getattr_media r attr) as [mo|]; [|exact IH].
  by intros [= <-].
Qed.

Lemma picked_temp m dest : picked m = Some dest -> is_temp dest = true.
Proof.
  unfold picked; destruct (reply_to_message m) as [r|]; [|discriminate].
  destruct (first_media r media_attrs) as [d|] eqn:E.
  - intros [= <-]; by apply (first_media_temp r media_attrs).
  - destruct (photo r); [by intros [= <-] | discriminate].
Qed.

Lemma download_replied_media_temp m s fl s' :
  _download_replied_media w m s = (Ok fl, s') ->
  Forall (fun p => is_temp p = true) fl.
Proof.
  rewrite download_replied_media_run.
  destruct (picked m) as [dest|] eqn:E; [|by intros [= <- _]].
  destruct (download_res w dest); [|discriminate].
  intros [= <- _]; constructor; [by apply (picked_temp m) | constructor].
Qed.

Lemma save_generated_image_temp img i s r s' :
  _save_generated_image w img i s = (Ok r, s') ->
  forall p, r = Some p -> is_temp p = true.
Proof.
  destruct (save_generated_image_run w img i s) as (r0 & s1 & -> & _ & _ & Hr).
  intros [= <- _] p ->; destruct Hr as [Hr|[Hr _]]; [discriminate|].
  by injection Hr as ->.
Qed.

Lemma relay_step_tidy m i img : keeps tidy (relay_step w m i img).
Proof.
  unfold relay_step; apply keeps_try_except; [tc_solve | | intros e; keeps_fun].
  destruct img as [u|u|u]; [|simpl; keeps_fun..].
  unfold relay_image.
  apply keeps_bind_post with (Q := fun r => forall p, r = Some p -> is_temp p = true);
    [tc_solve | intros s r s'; apply save_generated_image_temp | keeps_fun
    | intros [p|] Hp; [|keeps_fun]].
  apply keeps_bind; [tc_solve | keeps_fun | intros [|]; [|keeps_fun]].
  apply keeps_bind; [tc_solve | keeps_fun | intros _].
  apply keeps_modify; intros s; apply tidy_generated; by apply Hp.
Qed.

Lemma gemini_body_tidy m prompt wm : keeps tidy (gemini_body w m prompt wm).
Proof.
  unfold gemini_body.
  apply keeps_bind_post with (Q := Forall (fun p => is_temp p = true));
    [tc_solve | intros s fl s'; apply download_replied_media_temp | keeps_fun
    | intros fl Hfl].
  apply keeps_bind;
    [tc_solve | apply keeps_modify; intros s; by apply tidy_downloaded | intros _].
  apply keeps_bind; [tc_solve | keeps_fun | intros cl].
  apply keeps_bind; [tc_solve | keeps_fun | intros ch].
  unfold ask_and_relay.
  apply keeps_bind; [tc_solve | keeps_fun | intros dl].
  apply keeps_bind; [tc_solve | keeps_fun | intros snt].
  unfold relay_response.
  apply keeps_bind; [tc_solve | keeps_fun | intros _].
  apply keeps_bind; [tc_solve | keeps_fun | intros _].
  destruct (images (sent_response snt)); [keeps_fun|].
  apply keeps_relay_images; [tc_solve | intros j img; apply relay_step_tidy].
Qed.

(** The calls of a removal loop are [unlink]s of paths of its list. *)
Lemma for_each_safe_remove_events l s :
  exists t,
    trace (for_each l (_safe_remove w) s).2 = trace s ++ t
    /\ Forall (fun e => exists p, e = EvUnlink p /\ In p l) t.
Proof.
  revert s; induction l as [|q l IH]; intros s; simpl.
  - exists []; split; [by rewrite app_nil_r | constructor].
  - unfold bind.
    assert (exists t1, trace (_safe_remove w q s).2 = trace s ++ t1
                       /\ Forall (fun e => e = EvUnlink q) t1) as (t1 & E1 & F1).
    { unfold _safe_remove, try_except, bind, path_exists, gets, unlink, call, ret.
      destruct (bool_decide _); [|exists []; split; [by rewrite app_nil_r | constructor]].
      destruct (unlink_res w q) as [[]|e]; simpl;
        (exists [EvUnlink q]; split; [reflexivity | by repeat constructor]). }
    pose proof (safe_remove_ok w q s) as Hok.
    destruct (_safe_remove w q s) as [[[]|e] s1]; simpl in *; [|discriminate].
    destruct (IH s1) as (t2 & E2 & F2).
    exists (t1 ++ t2); split; [by rewrite E2, E1, app_assoc|].
    apply Forall_app; split.
    + eapply Forall_impl; [exact F1|]; simpl; intros e ->; eauto.
    + eapply Forall_impl; [exact F2|]; simpl; intros e (p & -> & Hp); eauto.
Qed.

Lemma cleanup_tidy : keeps tidy (cleanup w).
Proof.
  intros s [Hd Hg]; unfold cleanup, bind, gets.
  destruct (for_each_safe_remove_effect w (downloaded_files s) s) as (_ & Ed & Eg & _).
  destruct (for_each_safe_remove_events (downloaded_files s) s) as (t1 & E1 & F1).
  pose proof (for_each_safe_remove_ok w (downloaded_files s) s) as Hok.
  destruct (for_each _ _ s) as [[[]|e] s1]; simpl in *; [|discriminate].
  destruct (for_each_safe_remove_effect w (generated_image_paths s1) s1)
    as (_ & Ed' & Eg' & _).
  destruct (for_each_safe_remove_events (generated_image_paths s1) s1)
    as (t2 & E2 & F2).
  split; [unfold temp_lists; by rewrite Ed', Eg', Ed, Eg|].
  exists (t1 ++ t2); split; [by rewrite E2, E1, app_assoc|].
  rewrite List.Forall_forall in Hd, Hg.
  apply Forall_app; split.
  - eapply Forall_impl; [exact F1|]; simpl; intros e (p & -> & Hp); by apply Hd.
  - eapply Forall_impl; [exact F2|]; simpl; intros e (p & -> & Hp).
    apply Hg; by rewrite <- Eg.
Qed.

(** X15: the handlers delete nothing but their own temp files: every
    [unlink] of [gemini_query] is on a path it built under
    [temp_gemini_files] or [temp_gemini_images], whatever the lists held
    before, and [set_gemini] makes no [unlink] at all. *)
Theorem handlers_unlink_temp_only (m : message) (s : state) :
  Forall (fun e => unlink_temp e = true) (new_events (gemini_query w m) s)
  /\ Forall (fun e => is_unlink e = false) (new_events (set_gemini w m) s).
Proof.
  split.
  2: { assert (keeps (appends (fun e => negb (is_unlink e))) (set_gemini w m)) as K
         by keeps_fun.
       eapply Forall_impl; [apply (keeps_appends_new _ _ s K)|].
       simpl; intros e He; by apply negb_true_iff in He. }
  apply keeps_appends_new; unfold gemini_query.
  destruct (_ <? _)%nat; [keeps_fun|].
  destruct (negb _); [keeps_fun|].
  intros s0; unfold gemini_run, bind at 1.
  assert (keeps (appends unlink_temp) (respond w m thinking)) as K0 by keeps_fun.
  specialize (K0 s0); destruct (respond w m thinking s0) as [[wm|e] s1];
    simpl in *; [|exact K0].
  etransitivity; [exact K0|].
  unfold bind, modify; simpl.
  assert (keeps tidy
            (try_finally
               (try_except (gemini_body w m
                              (PyStr.strip (PyStr.join " " (List.tl (command m)))) wm)
                           (on_error w wm))
               (cleanup w))) as K.
  { apply keeps_try_finally; [tc_solve | | apply cleanup_tidy].
    apply keeps_try_except;
      [tc_solve | apply gemini_body_tidy | intros e; keeps_fun]. }
  destruct (K (with_generated [] (with_downloaded [] s1))) as [_ (t & E & F)];
    [split; constructor|].
  exists t; split; [exact E | exact F].
Qed.

End Tidy.

(** ** The downloaded file, from the download to the [finally] clause *)

#[local] Instance same_downloads_preorder : PreOrder same_downloads.
Proof.
  split; [by intros s|].
  intros s1 s2 s3 H12 H23; unfold same_downloads in *; by rewrite H23.
Qed.

Lemma same_downloads_intro s s' :
  downloaded_files s' = downloaded_files s -> same_downloads s s'.
Proof. by intros H. Qed.

(** The leaves, with that of [same_downloads]. *)
Ltac keeps_leaf ::=
  first
    [ apply appends_log; reflexivity
    | apply appends_same; reflexivity
    | apply db_frame_same; reflexivity
    | apply db_frame_insert; set_solver
    | apply db_frame_delete; set_solver
    | apply dirs_within_same; reflexivity
    | apply dirs_within_mkdir; set_solver
    | apply same_downloads_intro; reflexivity ].

Section Downloaded.

Variable w : world.

(** What follows the download in the [try] suite, with the [except]
    clauses, keeps [downloaded_files]. *)
Lemma after_download_keeps_list m prompt wm :
  keeps same_downloads
    (try_except
       (bind (get_client w)
          (fun cl => bind (open_chat w cl) (ask_and_relay w m prompt wm)))
       (on_error w wm)).
Proof. keeps_fun. Qed.

(** The [try] suite once the download has returned. *)
Lemma gemini_body_after_download m prompt wm s dest b :
  picked m = Some dest -> download_res w dest = Ok b ->
  try_except (gemini_body w m prompt wm) (on_error w wm) s
  = try_except
      (bind (get_client w)
         (fun cl => bind (open_chat w cl) (ask_and_relay w m prompt wm)))
      (on_error w wm)
      (with_downloaded [dest] (download w dest s).2).
Proof.
  intros Hp Hd; unfold gemini_body.
  assert (_download_replied_media w m s = (Ok [dest], (download w dest s).2)) as E
    by (by rewrite download_replied_media_run, Hp, Hd).
  rewrite (try_except_bind_ok _ _ _ _ _ _ E).
  unfold try_except at 1, bind at 1, modify; reflexivity.
Qed.

(** X16: the temp file of the replied-to media does not outlive the
    handler.  Once its download has returned, whatever happens next (the
    settings, the AI service, the relay of the answer may all raise), the
    file is gone when [gemini_run] ends, unless its own [unlink] raised. *)
Theorem downloaded_file_removed (m : message) (prompt : string) (s s0 : state)
    (wm : msgref) (dest : Path) (b : bool) :
  respond w m thinking s = (Ok wm, s0) ->
  picked m = Some dest ->
  download_res w dest = Ok b ->
  (forall e, unlink_res w dest <> Raise e) ->
  dest ∉ files (gemini_run w m prompt s).2.
Proof.
  intros Hr Hp Hd Hu.
  unfold gemini_run, bind at 1; rewrite Hr.
  unfold bind, modify; simpl; unfold try_finally.
  rewrite (gemini_body_after_download m prompt wm _ dest b Hp Hd).
  pose proof (after_download_keeps_list m prompt wm) as K.
  match goal with
  | |- context [try_except ?body ?h ?s1] =>
      specialize (K s1); destruct (try_except body h s1) as [r s2]
  end.
  unfold same_downloads in K; simpl in K.
  pose proof (cleanup_removes w s2 dest) as Hrem.
  pose proof (cleanup_ok w s2) as Hok.
  destruct (cleanup w s2) as [[[]|e] s3]; simpl in *; [|discriminate].
  apply Hrem; [|exact Hu].
  rewrite K; simpl; by left.
Qed.

End Downloaded.

Lemma downloaded_file_removed_sample :
  "temp_gemini_files/AgADdocNone"%string
  ∉ files (gemini_run hostile_service (Sample.ask (Some Sample.bare_document))
             "hello" Sample.configured).2.
Proof.
  apply (downloaded_file_removed hostile_service
           (Sample.ask (Some Sample.bare_document)) "hello"
           Sample.configured
           (respond hostile_service (Sample.ask (Some Sample.bare_document)) thinking
              Sample.configured).2
           WaitMsg "temp_gemini_files/AgADdocNone" true);
    [reflexivity | reflexivity | reflexivity | discriminate].
Defined.

(** X17: a download that raises ends the query there.  The user gets the
    report of that exception, and neither the settings store nor the AI
    service has been touched: the calls are the Thinking answer, the
    download and the error report, and the store and the files are as
    before. *)
Theorem failed_download_aborts (w : world) (m : message) (prompt : string)
    (s s0 : state) (wm : msgref) (dest : Path) (e : exn) :
  respond w m thinking s = (Ok wm, s0) ->
  picked m = Some dest ->
  download_res w dest = Raise e ->
  new_events (gemini_run w m prompt) s
  = [ if is_self m then EvEdit Incoming thinking None else EvReply thinking;
      EvDownload dest;
      EvEdit WaitMsg (error_text e) None ]
  /\ db (gemini_run w m prompt s).2 = db s
  /\ files (gemini_run w m prompt s).2 = files s.
Proof.
  intros Hr Hp Hd.
  pose proof (respond_returns _ _ _ _ _ _ Hr) as ->.
  pose proof (respond_state w m thinking s) as Hs0; rewrite Hr in Hs0; simpl in Hs0.
  assert ((gemini_run w m prompt s).2
          = log (EvEdit WaitMsg (error_text e) None)
              (log (EvDownload dest) (with_generated [] (with_downloaded [] s0)))) as E.
  { unfold gemini_run, bind at 1; rewrite Hr.
    unfold bind at 1 2, modify; simpl; unfold try_finally, try_except, gemini_body,
      bind at 1.
    rewrite download_replied_media_run, Hp, Hd.
    unfold download, bind, call; rewrite Hd.
    unfold on_error, edit, bind, call, ret, cleanup, gets; simpl.
    by destruct (edit_res w WaitMsg (error_text e)) as [[]|x]. }
  unfold new_events; rewrite E, Hs0; simpl.
  split; [|by split].
  by rewrite <- !app_assoc, drop_app_length.
Qed.

Lemma failed_download_aborts_sample :
  db (gemini_run hostile (Sample.ask (Some Sample.bare_document)) "hello"
        Sample.configured).2
  = db Sample.configured.
Proof.
  apply (failed_download_aborts hostile (Sample.ask (Some Sample.bare_document))
           "hello" Sample.configured
           (respond hostile (Sample.ask (Some Sample.bare_document)) thinking
              Sample.configured).2
           WaitMsg "temp_gemini_files/AgADdocNone" (OtherException "RPCError"));
    reflexivity.
Defined.

(** ** Which media is downloaded *)

(** X18: the media of the replied-to message are taken in the order
    document, audio, video, voice, video note, and the photo only when none
    of these five is there: the one download is for the first that is
    present, under the destination computed for it. *)
Theorem download_priority (w : world) (m : message) (s : state) :
  new_events (_download_replied_media w m) s
  = match reply_to_message m with
    | None => []
    | Some r =>
        match document r, audio r, video r, voice r, video_note r, photo r with
        | Some x, _, _, _, _, _ => [EvDownload (media_dest "document" x)]
        | None, Some x, _, _, _, _ => [EvDownload (media_dest "audio" x)]
        | None, None, Some x, _, _, _ => [EvDownload (media_dest "video" x)]
        | None, None, None, Some x, _, _ => [EvDownload (media_dest "voice" x)]
        | None, None, None, None, Some x, _ =>
            [EvDownload (media_dest "video_note" x)]
        | None, None, None, None, None, Some x =>
            [EvDownload ("temp_gemini_files/" ++ file_unique_id x ++ ".jpg")%string]
        | None, None, None, None, None, None => []
        end
    end.
Proof.
  unfold new_events; rewrite download_replied_media_run; unfold picked.
  destruct (reply_to_message m) as [r|]; [|simpl; apply drop_all].
  destruct r as [d a v vo vn p].
  cbn [first_media media_attrs getattr_media document audio video voice
       video_note photo String.eqb Ascii.eqb Bool.eqb].
  destruct d as [d|]; [|destruct a as [a|]; [|destruct v as [v|];
    [|destruct vo as [vo|]; [|destruct vn as [vn|]; [|destruct p as [p|]]]]]];
    try (simpl; apply drop_all);
    match goal with
    | |- context [download w ?dest s] =>
        cbn [snd]; destruct (download_run w dest s) as [_ ->];
        apply drop_app_length
    end.
Qed.
